(** * ZurichWoof data loader: a shallow embedding of [data_loader.py]

    The loaders of [data_loader.py] are embedded as Rocq functions over the
    rows that [csv.reader] yields (a row is a list of strings).  Python
    dictionaries are finite maps ([gmap]), exceptions are the [Raise]
    alternative of a small error monad, and the in-place mutation of the
    distance table is explicit state passing. *)

From Stdlib Require Import ZArith QArith Qminmax Lqa String Ascii List Lia.
From stdpp Require Import gmap strings list fin_maps.

Local Open Scope Z_scope.
Local Open Scope string_scope.

(** ** Exceptions *)

Inductive exn : Type :=
| ValueError
| IndexError
| KeyError
| AssertionError
| ZeroDivisionError.

Inductive result (A : Type) : Type :=
| Ok (a : A)
| Raise (e : exn).
Arguments Ok {A} a.
Arguments Raise {A} e.

#[global] Instance result_ret : MRet result := @Ok.
#[global] Instance result_bind : MBind result :=
  λ A B f m, match m with Ok a => f a | Raise e => Raise e end.

(** [l[i]] of Python, for a non-negative literal index. *)
Definition index {A} (l : list A) (i : nat) : result A :=
  match l !! i with
  | Some x => Ok x
  | None => Raise IndexError
  end.

(** [d[k]] of Python on a dictionary. *)
Definition getitem {K A} `{Countable K} (d : gmap K A) (k : K) : result A :=
  match d !! k with
  | Some x => Ok x
  | None => Raise KeyError
  end.

(** ** String builtins, on ASCII text *)

Module Str.

Definition chars (s : string) : list ascii := list_ascii_of_string s.

(** [str.isspace] on one ASCII character, the white space of [str.strip]:
    tab, line feed, vertical tab, form feed, carriage return, the
    separators 28 to 31, and space. *)
Definition is_space (c : ascii) : bool :=
  let n := nat_of_ascii c in
  ((9 <=? n) && (n <=? 13) || (28 <=? n) && (n <=? 32))%nat.

(** [not s.strip()]: the text holds nothing but white space. *)
Definition is_blank (s : string) : bool := forallb is_space (chars s).

Definition is_lower (c : ascii) : bool :=
  let n := nat_of_ascii c in ((97 <=? n) && (n <=? 122))%nat.
Definition is_upper (c : ascii) : bool :=
  let n := nat_of_ascii c in ((65 <=? n) && (n <=? 90))%nat.

Definition to_upper (c : ascii) : ascii :=
  if is_lower c then ascii_of_nat (nat_of_ascii c - 32) else c.
Definition to_lower (c : ascii) : ascii :=
  if is_upper c then ascii_of_nat (nat_of_ascii c + 32) else c.

Fixpoint map_chars (f : ascii → ascii) (s : string) : string :=
  match s with
  | EmptyString => EmptyString
  | String c s' => String (f c) (map_chars f s')
  end.

(** [s.upper()] *)
Definition upper (s : string) : string := map_chars to_upper s.

(** [s.capitalize()]: first character upper case, the rest lower case. *)
Definition capitalize (s : string) : string :=
  match s with
  | EmptyString => EmptyString
  | String c s' => String (to_upper c) (map_chars to_lower s')
  end.

(** [needle in s] *)
Fixpoint contains (needle s : string) : bool :=
  String.prefix needle s ||
  match s with
  | EmptyString => false
  | String _ s' => contains needle s'
  end.

(** [s.split(sep)] for a one-character separator. *)
Fixpoint split (sep : ascii) (s : string) : list string :=
  match s with
  | EmptyString => [EmptyString]
  | String c s' =>
      if Ascii.eqb c sep then EmptyString :: split sep s'
      else match split sep s' with
           | h :: t => String c h :: t
           | [] => [String c EmptyString]
           end
  end.

(** The white space that [int] and [float] skip around an ASCII literal:
    tab, line feed, vertical tab, form feed, carriage return and space.
    The separators 28 to 31, which [str.strip] removes, are not skipped:
    a literal next to one is rejected. *)
Definition is_literal_space (c : ascii) : bool :=
  let n := nat_of_ascii c in
  ((9 <=? n) && (n <=? 13) || (n =? 32))%nat.

Fixpoint skip_space (cs : list ascii) : list ascii :=
  match cs with
  | c :: cs' => if is_literal_space c then skip_space cs' else cs
  | [] => []
  end.

(** The literal between the white space on both sides. *)
Definition trim (cs : list ascii) : list ascii :=
  rev (skip_space (rev (skip_space cs))).

Definition digit_of (c : ascii) : option Z :=
  let n := nat_of_ascii c in
  if ((48 <=? n) && (n <=? 57))%nat then Some (Z.of_nat (n - 48)) else None.

(** Decimal digits, with single underscores allowed between two digits.
    [after_digit] tells whether the previous character was a digit. *)
Fixpoint digits (acc : Z) (after_digit : bool) (cs : list ascii) : option Z :=
  match cs with
  | [] => if after_digit then Some acc else None
  | c :: cs' =>
      match digit_of c with
      | Some d => digits (acc * 10 + d) true cs'
      | None =>
          if after_digit && Ascii.eqb c "_" then digits acc false cs'
          else None
      end
  end.

(** An optional sign in front of [body]. *)
Definition signed {A} (neg : A → A) (body : list ascii → option A)
    (cs : list ascii) : option A :=
  match cs with
  | "-"%char :: cs' => neg <$> body cs'
  | "+"%char :: cs' => body cs'
  | _ => body cs
  end.

(** [int(s)] in base ten: surrounding white space, an optional sign,
    decimal digits.  [None] stands for the [ValueError] of [int].
    Digits outside ASCII, which [int] also reads, and the limit that
    [int] puts on the number of digits are not covered. *)
Definition py_int (s : string) : option Z :=
  signed Z.opp (digits 0 false) (trim (chars s)).

(** The digits after the point, with underscores as in [digits]: the value
    and the power of ten reached. *)
Fixpoint fraction (num : Z) (den : positive) (after_digit : bool)
    (cs : list ascii) : option (Z * positive) :=
  match cs with
  | [] => if after_digit then Some (num, den) else None
  | c :: cs' =>
      match digit_of c with
      | Some d => fraction (num * 10 + d) (den * 10) true cs'
      | None =>
          if after_digit && Ascii.eqb c "_" then fraction num den false cs'
          else None
      end
  end.

(** The text before the first character that [stop] accepts, and the text
    after it when there is one. *)
Fixpoint split_at (stop : ascii → bool) (cs : list ascii)
  : list ascii * option (list ascii) :=
  match cs with
  | [] => ([], None)
  | c :: cs' =>
      if stop c then ([], Some cs')
      else let '(a, b) := split_at stop cs' in (c :: a, b)
  end.

(** [12], [3.5], [.5], [7.]: digits on at least one side of the point. *)
Definition point_number (cs : list ascii) : option Q :=
  match split_at (Ascii.eqb ".") cs with
  | (ip, None) => inject_Z <$> digits 0 false ip
  | (ip, Some fp) =>
      match ip, fp with
      | [], [] => None
      | _, _ =>
          i ← (match ip with [] => Some 0 | _ => digits 0 false ip end);
          '(n, d) ← (match fp with
                     | [] => Some (0, 1%positive)
                     | _ => fraction 0 1 false fp
                     end);
          Some (inject_Z i + Qmake n d)%Q
      end
  end.

(** A point number, with an optional power of ten after [e] or [E]. *)
Definition unsigned_decimal (cs : list ascii) : option Q :=
  match split_at (λ c, Ascii.eqb c "e" || Ascii.eqb c "E") cs with
  | (mantissa, None) => point_number mantissa
  | (mantissa, Some exponent) =>
      m ← point_number mantissa;
      e ← signed Z.opp (digits 0 false) exponent;
      Some (m * Qpower (inject_Z 10) e)%Q
  end.

(** [float(s)] on decimal literals ([12], [3.5], [-0.25], [.5], [7.],
    [1_000.5], [2.5e-3]), read as the exact rational they denote.  [None]
    stands for the [ValueError] of [float].  Three things [float] does are
    outside this model, which has rationals only: it rounds a literal to
    the nearest binary64 number, it reads a literal beyond the range of
    binary64 as an infinity, and it reads [inf], [infinity] and [nan],
    which are [None] here. *)
Definition py_float (s : string) : option Q :=
  signed Qopp unsigned_decimal (trim (chars s)).

End Str.

Definition to_int (s : string) : result Z :=
  match Str.py_int s with
  | Some z => Ok z
  | None => Raise ValueError
  end.

Definition to_float (s : string) : result Q :=
  match Str.py_float s with
  | Some q => Ok q
  | None => Raise ValueError
  end.

(** A row of a CSV file, as [csv.reader] yields it. *)
Abbreviation row := (list string).

(** ** Data model *)

(** Modelled from the spec: [districts.py] is not among the sources.  A
    District has an integer id and a name; equality and hashing are by id
    (spec, data model).  The class defines no truth value of its own, so an
    instance is always true in a condition. *)
Record District : Type := { district_id : Z; district_name : string }.

Definition district_eqb (a b : District) : bool :=
  Z.eqb (district_id a) (district_id b).

Definition district_truthy (_ : District) : bool := true.

(** Modelled from the spec: [userdata.py] is not among the sources.  A User
    has an id, an age, a gender code and the District it lives in; its
    identity is the id (spec, data model). *)
Record User : Type :=
  { user_id : Z; user_age : Z; user_gender : string; user_district : District }.

(** A [set[District]]: its elements, in the order they were added.  Adding
    a District equal (by id) to a member leaves a Python set unchanged. *)
Definition district_set_add (d : District) (s : list District) : list District :=
  if existsb (district_eqb d) s then s else s ++ [d].

(** [{target.district_id: target for target in districts}] *)
Definition district_lookup_of (districts : list District) : gmap Z District :=
  foldl (λ m target, <[district_id target := target]> m) ∅ districts.

(** ** Graphs *)

(** The items stored as graph vertices: a User and a District are hashed by
    their id, a breed is its capitalized name. *)
Inductive vertex : Type :=
| VUser (uid : Z)
| VDistrict (did : Z)
| VBreed (name : string).

#[global] Instance vertex_eq_dec : EqDecision vertex.
Proof. solve_decision. Defined.

#[global] Instance vertex_countable : Countable vertex.
Proof.
  refine (inj_countable'
    (λ v, match v with
          | VUser u => inl u
          | VDistrict d => inr (inl d)
          | VBreed b => inr (inr b)
          end)
    (λ x, match x with
          | inl u => VUser u
          | inr (inl d) => VDistrict d
          | inr (inr b) => VBreed b
          end) _).
  by intros [].
Defined.

(** Modelled from the spec: [graphs.py] is not among the sources.  A Graph
    is a set of vertices and a set of undirected edges (spec, data model);
    an undirected edge is kept as both ordered pairs. *)
Record Graph : Type :=
  { g_vertices : gset vertex; g_edges : gset (vertex * vertex) }.

Module G.
Definition empty : Graph := {| g_vertices := ∅; g_edges := ∅ |}.
Definition add_vertex (item : vertex) (g : Graph) : Graph :=
  {| g_vertices := {[item]} ∪ g_vertices g; g_edges := g_edges g |}.
Definition add_edge (item1 item2 : vertex) (g : Graph) : Graph :=
  {| g_vertices := g_vertices g;
     g_edges := {[(item1, item2); (item2, item1)]} ∪ g_edges g |}.
End G.

(** Modelled from the spec: [graphs.py] is not among the sources.  A
    WeightedGraph is a Graph whose edges carry a weight; the weight of an
    edge that does not exist reads as 0 (spec, data model), and adding an
    edge sets its weight in both directions. *)
Record WeightedGraph : Type :=
  { w_vertices : gset vertex; w_weights : gmap (vertex * vertex) Z }.

Module W.
Definition empty : WeightedGraph := {| w_vertices := ∅; w_weights := ∅ |}.
Definition contains (item : vertex) (g : WeightedGraph) : bool :=
  bool_decide (item ∈ w_vertices g).
Definition add_vertex (item : vertex) (g : WeightedGraph) : WeightedGraph :=
  {| w_vertices := {[item]} ∪ w_vertices g; w_weights := w_weights g |}.
Definition get_weight (item1 item2 : vertex) (g : WeightedGraph) : Z :=
  default 0 (w_weights g !! (item1, item2)).
Definition add_edge (item1 item2 : vertex) (weight : Z) (g : WeightedGraph)
  : WeightedGraph :=
  {| w_vertices := w_vertices g;
     w_weights := <[(item2, item1) := weight]>
                    (<[(item1, item2) := weight]> (w_weights g)) |}.
End W.

(** ** [load_district_data] *)

Fixpoint load_district_rows (districts : list District) (rows : list row)
  : result (list District) :=
  match rows with
  | [] => Ok districts
  | r :: rest =>
      id_text ← index r 1;
      id ← to_int id_text;
      name ← index r 2;
      let district := {| district_id := id; district_name := name |} in
      load_district_rows (district_set_add district districts) rest
  end.

(** The file is the list of its rows, header first; [next(reader, None)]
    drops the header. *)
Definition load_district_data (file : list row) : result (list District) :=
  load_district_rows [] (tail file).

(** ** [load_dog_data] *)

(** The two graphs under construction and the [users] dictionary. *)
Record loader_state : Type :=
  { dog_graph : Graph;
    district_graph : WeightedGraph;
    users : gmap Z User }.

Definition mixed_marker : string := "Mischling".

(** One turn of the loop over the ownership rows; [Ok st] with the state
    left as it was is a [continue]. *)
Definition process_row (district_mapping : gmap Z District)
    (st : loader_state) (r : row) : result loader_state :=
  uid_text ← index r 0;
  uid ← to_int uid_text;
  raw_age_range ← index r 1;
  if Str.is_blank raw_age_range then Ok st else
  gender_text ← index r 2;
  let gender := Str.upper gender_text in
  if Str.is_blank gender then Ok st else
  did_text ← index r 4;
  did ← to_int did_text;
  match district_mapping !! did with
  | None => Ok st
  | Some district =>
      breed_text ← index r 5;
      let dog_breed := Str.capitalize breed_text in
      if Str.contains mixed_marker dog_breed then Ok st else
      let split_age_range := Str.split "-" raw_age_range in
      lo_text ← index split_age_range 0;
      lo ← to_int lo_text;
      hi_text ← index split_age_range 1;
      hi ← to_int hi_text;
      let age := (lo + hi) `div` 2 in
      let '(users1, dog_graph1) :=
        match district_mapping !! uid with
        | None =>
            let u := {| user_id := uid; user_age := age;
                        user_gender := gender; user_district := district |} in
            (<[uid := u]> (users st),
             G.add_vertex (VUser (user_id u)) (dog_graph st))
        | Some _ => (users st, dog_graph st)
        end in
      user ← getitem users1 uid;
      let dog_graph2 := G.add_vertex (VBreed dog_breed) dog_graph1 in
      let dog_graph3 :=
        G.add_edge (VBreed dog_breed) (VUser (user_id user)) dog_graph2 in
      let dv := VDistrict (district_id (user_district user)) in
      let wg1 :=
        if W.contains dv (district_graph st) then district_graph st
        else W.add_vertex dv (district_graph st) in
      let wg2 :=
        if W.contains (VBreed dog_breed) wg1 then wg1
        else W.add_vertex (VBreed dog_breed) wg1 in
      let current_weight := W.get_weight dv (VBreed dog_breed) wg2 in
      let wg3 := W.add_edge dv (VBreed dog_breed) (current_weight + 1) wg2 in
      Ok {| dog_graph := dog_graph3; district_graph := wg3; users := users1 |}
  end.

Fixpoint process_rows (district_mapping : gmap Z District)
    (st : loader_state) (rows : list row) : result loader_state :=
  match rows with
  | [] => Ok st
  | r :: rest =>
      st' ← process_row district_mapping st r;
      process_rows district_mapping st' rest
  end.

Definition initial_state : loader_state :=
  {| dog_graph := G.empty; district_graph := W.empty; users := ∅ |}.

Definition load_dog_data (dog_data_file : list row) (districts : list District)
  : result (Graph * WeightedGraph) :=
  let district_mapping := district_lookup_of districts in
  st ← process_rows district_mapping initial_state (tail dog_data_file);
  Ok (dog_graph st, district_graph st).

(** ** [get_raw_district_distances] *)

(** A [dict[District, dict[District, float]]].  A District key is hashed by
    its id, so the table is keyed by ids.  Distances are exact rationals:
    the rounding, the overflow, the infinities and the NaN of binary
    floating point are outside this model.  The statements below are
    chosen to hold for the floating-point code as well: where the outcome
    of the arithmetic matters they assume the distances [within_range],
    and they claim no exact value other than the end points 0 and 1. *)
Abbreviation table := (gmap Z (gmap Z Q)).

(** One [destId:distance] entry of a row, added to [district_distances]. *)
Definition process_mapping (district_lookup : gmap Z District)
    (origin : District) (district_distances : gmap Z Q) (mapping : string)
  : result (gmap Z Q) :=
  let mapping_split := Str.split ":" mapping in
  id_text ← index mapping_split 0;
  destination_id ← to_int id_text;
  distance_text ← index mapping_split 1;
  distance ← to_float distance_text;
  destination ← getitem district_lookup destination_id;
  if negb (district_truthy destination) || district_eqb destination origin
  then Ok district_distances
  else Ok (<[district_id destination := distance]> district_distances).

Fixpoint process_mappings (district_lookup : gmap Z District)
    (origin : District) (district_distances : gmap Z Q)
    (mappings : list string) : result (gmap Z Q) :=
  match mappings with
  | [] => Ok district_distances
  | mapping :: rest =>
      dd ← process_mapping district_lookup origin district_distances mapping;
      process_mappings district_lookup origin dd rest
  end.

Definition process_distance_row (district_lookup : gmap Z District)
    (raw_district_distances : table) (r : row) : result table :=
  id_text ← index r 0;
  oid ← to_int id_text;
  origin ← getitem district_lookup oid;
  if negb (district_truthy origin) then Ok raw_district_distances else
  mappings_text ← index r 1;
  let district_mapping_raw := Str.split "|" mappings_text in
  district_distances ←
    process_mappings district_lookup origin ∅ district_mapping_raw;
  Ok (<[district_id origin := district_distances]> raw_district_distances).

Fixpoint process_distance_rows (district_lookup : gmap Z District)
    (raw_district_distances : table) (rows : list row) : result table :=
  match rows with
  | [] => Ok raw_district_distances
  | r :: rest =>
      t ← process_distance_row district_lookup raw_district_distances r;
      process_distance_rows district_lookup t rest
  end.

Definition get_raw_district_distances (districts : list District)
    (district_distance_file : list row) : result table :=
  process_distance_rows (district_lookup_of districts) ∅
    (tail district_distance_file).

(** ** [normalize_district_distances] *)

(** [raw[origin][destination]] as an optional read. *)
Definition distance_at (t : table) (k : Z * Z) : option Q :=
  t !! k.1 ≫= λ m, m !! k.2.

(** [raw[origin][destination] = v] *)
Definition store_distance (k : Z * Z) (v : Q) (t : table) : table :=
  <[k.1 := <[k.2 := v]> (default ∅ (t !! k.1))]> t.

(** The (origin, destination) pairs the two nested [for] loops visit. *)
Definition pairs_of (t : table) : list (Z * Z) :=
  '(origin, m) ← map_to_list t;
  (λ destination, (origin, destination)) <$> (map_to_list m).*1.

(** [min(a, b)] and [max(a, b)] of Python: the first argument unless the
    second is strictly better.  [None] is [math.inf]. *)
Definition py_min (a : Q) (b : option Q) : Q :=
  match b with
  | None => a
  | Some b => if Qle_bool a b then a else b
  end.

Definition py_max (a b : Q) : Q := if Qle_bool b a then a else b.

(** The first pair of loops: it asserts that no pair is a self pair and
    tracks the least and the greatest distance. *)
Fixpoint scan_distances (t : table) (acc : option Q * Q) (ks : list (Z * Z))
  : result (option Q * Q) :=
  match ks with
  | [] => Ok acc
  | k :: rest =>
      if Z.eqb k.1 k.2 then Raise AssertionError else
      distance ← (match distance_at t k with
                  | Some q => Ok q
                  | None => Raise KeyError
                  end);
      scan_distances t (Some (py_min distance acc.1), py_max distance acc.2) rest
  end.

(** What a call leaves behind: the table as mutated so far, and whether the
    call returned or raised. *)
Inductive outcome : Type :=
| Returned (store : table)
| Raised (e : exn) (store : table).

Definition in_unit_interval (q : Q) : bool := Qle_bool 0 q && Qle_bool q 1.

(** The second pair of loops, rewriting the table entry by entry. *)
Fixpoint rescale_distances (min_distance difference : Q) (ks : list (Z * Z))
    (t : table) : outcome :=
  match ks with
  | [] => Returned t
  | k :: rest =>
      match distance_at t k with
      | None => Raised KeyError t
      | Some distance =>
          let distance := (distance - min_distance)%Q in
          if Qeq_bool difference 0 then Raised ZeroDivisionError t else
          let distance := (distance / difference)%Q in
          let distance := (1 - distance)%Q in
          let t' := store_distance k distance t in
          if in_unit_interval distance
          then rescale_distances min_distance difference rest t'
          else Raised AssertionError t'
      end
  end.

Definition normalize_district_distances (raw_district_distances : table)
  : outcome :=
  let ks := pairs_of raw_district_distances in
  match scan_distances raw_district_distances (None, 0%Q) ks with
  | Raise e => Raised e raw_district_distances
  | Ok (min_distance, max_distance) =>
      if Qeq_bool max_distance 0 then Raised ValueError raw_district_distances
      else
        match min_distance with
        | None =>
            (* [math.inf] is left only when no pair was visited, so the
               second pair of loops has nothing to visit either *)
            Returned raw_district_distances
        | Some min_distance =>
            let difference := (max_distance - min_distance)%Q in
            rescale_distances min_distance difference ks raw_district_distances
        end
  end.

(** ** Auxiliary definitions for the statements *)

(** What lines 56 to 71 of [load_dog_data] make of a row: a [continue], or
    the values the rest of the loop body works with. *)
Inductive reading : Type :=
| Skip
| Entry (uid age : Z) (gender : string) (district : District) (dog_breed : string).

Definition read_row (district_mapping : gmap Z District) (r : row)
  : result reading :=
  uid_text ← index r 0;
  uid ← to_int uid_text;
  raw_age_range ← index r 1;
  if Str.is_blank raw_age_range then Ok Skip else
  gender_text ← index r 2;
  let gender := Str.upper gender_text in
  if Str.is_blank gender then Ok Skip else
  did_text ← index r 4;
  did ← to_int did_text;
  match district_mapping !! did with
  | None => Ok Skip
  | Some district =>
      breed_text ← index r 5;
      let dog_breed := Str.capitalize breed_text in
      if Str.contains mixed_marker dog_breed then Ok Skip else
      let split_age_range := Str.split "-" raw_age_range in
      lo_text ← index split_age_range 0;
      lo ← to_int lo_text;
      hi_text ← index split_age_range 1;
      hi ← to_int hi_text;
      Ok (Entry uid ((lo + hi) `div` 2) gender district dog_breed)
  end.

(** Lines 72 to 84 of [load_dog_data] on the values read from a row. *)
Definition add_entry (district_mapping : gmap Z District) (st : loader_state)
    (uid age : Z) (gender : string) (district : District) (dog_breed : string)
  : result loader_state :=
  let '(users1, dog_graph1) :=
    match district_mapping !! uid with
    | None =>
        let u := {| user_id := uid; user_age := age;
                    user_gender := gender; user_district := district |} in
        (<[uid := u]> (users st),
         G.add_vertex (VUser (user_id u)) (dog_graph st))
    | Some _ => (users st, dog_graph st)
    end in
  user ← getitem users1 uid;
  let dog_graph2 := G.add_vertex (VBreed dog_breed) dog_graph1 in
  let dog_graph3 :=
    G.add_edge (VBreed dog_breed) (VUser (user_id user)) dog_graph2 in
  let dv := VDistrict (district_id (user_district user)) in
  let wg1 :=
    if W.contains dv (district_graph st) then district_graph st
    else W.add_vertex dv (district_graph st) in
  let wg2 :=
    if W.contains (VBreed dog_breed) wg1 then wg1
    else W.add_vertex (VBreed dog_breed) wg1 in
  let current_weight := W.get_weight dv (VBreed dog_breed) wg2 in
  let wg3 := W.add_edge dv (VBreed dog_breed) (current_weight + 1) wg2 in
  Ok {| dog_graph := dog_graph3; district_graph := wg3; users := users1 |}.

(** The conditions on a row that the statements speak of. *)
Definition user_id_parses (r : row) : Prop :=
  ∃ text uid, r !! 0%nat = Some text ∧ Str.py_int text = Some uid.

Definition district_id_parses (r : row) : Prop :=
  ∃ text did, r !! 4%nat = Some text ∧ Str.py_int text = Some did.

Definition blank_age_range (r : row) : Prop :=
  ∃ text, r !! 1%nat = Some text ∧ Str.is_blank text = true.

Definition blank_gender (r : row) : Prop :=
  ∃ text, r !! 2%nat = Some text ∧ Str.is_blank text = true.

Definition unresolved_district (district_mapping : gmap Z District) (r : row)
  : Prop :=
  ∃ text did, r !! 4%nat = Some text ∧ Str.py_int text = Some did ∧
              district_mapping !! did = None.

Definition mixed_breed (r : row) : Prop :=
  ∃ text, r !! 5%nat = Some text ∧
          Str.contains mixed_marker (Str.capitalize text) = true.

(** A row that passes every check of the loop body and whose user id is a
    key of the district lookup. *)
Definition collides (district_mapping : gmap Z District) (r : row) : Prop :=
  ∃ uid age gender district dog_breed,
    read_row district_mapping r = Ok (Entry uid age gender district dog_breed) ∧
    is_Some (district_mapping !! uid).

(** A row that is not skipped, resolves to the district of id [d] and whose
    capitalized breed name is [b]. *)
Definition counts_for (district_mapping : gmap Z District) (d : Z) (b : string)
    (r : row) : bool :=
  match r !! 1%nat, r !! 2%nat, r !! 4%nat, r !! 5%nat with
  | Some age_text, Some gender_text, Some did_text, Some breed_text =>
      negb (Str.is_blank age_text) && negb (Str.is_blank gender_text) &&
      negb (Str.contains mixed_marker (Str.capitalize breed_text)) &&
      bool_decide (Str.capitalize breed_text = b) &&
      match Str.py_int did_text ≫= (district_mapping !!.) with
      | Some district => Z.eqb (district_id district) d
      | None => false
      end
  | _, _, _, _ => false
  end.

Definition count_rows (district_mapping : gmap Z District) (d : Z) (b : string)
    (rows : list row) : Z :=
  Z.of_nat (length (filter (λ r, counts_for district_mapping d b r = true) rows)).

(** The District a row of the district file describes. *)
Definition row_district (r : row) : option District :=
  id_text ← r !! 1%nat;
  id ← Str.py_int id_text;
  name ← r !! 2%nat;
  Some {| district_id := id; district_name := name |}.

(** The first District of a list that carries the id. *)
Definition find_district (id : Z) (l : list District) : option District :=
  find (λ d, Z.eqb (district_id d) id) l.

(** The name on the last row of the district file that carries the id. *)
Definition last_parsed_name (id : Z) (file : list row) : option string :=
  district_name <$> find_district id (rev (omap row_district (tail file))).

(** The store a call leaves behind. *)
Definition store_of (o : outcome) : table :=
  match o with
  | Returned t => t
  | Raised _ t => t
  end.

(** [q] is the distance of the pair [k], and no pair of the table has a
    smaller (greater) one. *)
Definition least_distance (t : table) (k : Z * Z) (q : Q) : Prop :=
  distance_at t k = Some q ∧
  ∀ k' q', distance_at t k' = Some q' → (q <= q')%Q.

Definition greatest_distance (t : table) (k : Z * Z) (q : Q) : Prop :=
  distance_at t k = Some q ∧
  ∀ k' q', distance_at t k' = Some q' → (q' <= q)%Q.

(** The invariant of a distance table: no distance from a district to
    itself. *)
Definition no_self_pairs (t : table) : Prop :=
  ∀ k, is_Some (distance_at t k) → k.1 ≠ k.2.

(** Every stored value is a closeness score. *)
Definition all_scores (t : table) : Prop :=
  ∀ k v, distance_at t k = Some v → (0 <= v <= 1)%Q.

(** The user map holds no key of the district lookup. *)
Definition users_disjoint (dm : gmap Z District) (st : loader_state) : Prop :=
  ∀ k, is_Some (users st !! k) → dm !! k = None.

(** The closeness score the loop body computes from a raw distance. *)
Definition score (mn difference q : Q) : Q := (1 - (q - mn) / difference)%Q.

(** ** [dog_breed_data_loader] *)

Record UserPreferenceDogBreed : Type :=
  { breed_name : string;
    affectionate_w_family : Z;
    good_w_young_children : Z;
    good_w_other_dog : Z;
    shedding_level : Z;
    openness_to_strangers : Z;
    playfulness : Z;
    protective_nature : Z;
    adaptability : Z;
    trainability : Z;
    energy : Z;
    barking : Z;
    stimulation_needs : Z }.

(** [int(row[i])] *)
Definition int_at (r : row) (i : nat) : result Z :=
  text ← index r i; to_int text.

(** The constructor call of the loop body; its arguments are evaluated from
    left to right. *)
Definition breed_of_row (r : row) : result UserPreferenceDogBreed :=
  name ← index r 0;
  v1 ← int_at r 1; v2 ← int_at r 2; v3 ← int_at r 3; v4 ← int_at r 4;
  v5 ← int_at r 5; v6 ← int_at r 6; v7 ← int_at r 7; v8 ← int_at r 8;
  v9 ← int_at r 9; v10 ← int_at r 10; v11 ← int_at r 11; v12 ← int_at r 12;
  Ok {| breed_name := name;
        affectionate_w_family := v1; good_w_young_children := v2;
        good_w_other_dog := v3; shedding_level := v4;
        openness_to_strangers := v5; playfulness := v6;
        protective_nature := v7; adaptability := v8; trainability := v9;
        energy := v10; barking := v11; stimulation_needs := v12 |}.

Fixpoint breed_rows (breed_informations : list UserPreferenceDogBreed)
    (rows : list row) : result (list UserPreferenceDogBreed) :=
  match rows with
  | [] => Ok breed_informations
  | r :: rest =>
      breed ← breed_of_row r;
      breed_rows (breed_informations ++ [breed]) rest
  end.

(** The file is the list of its rows; [readline()] consumes the header
    line before the reader starts. *)
Definition dog_breed_data_loader (file : list row)
  : result (list UserPreferenceDogBreed) :=
  breed_rows [] (tail file).

(** The trait scores of a record, in the order of the columns 1 to 12. *)
Definition traits (b : UserPreferenceDogBreed) : list Z :=
  [ affectionate_w_family b; good_w_young_children b; good_w_other_dog b;
    shedding_level b; openness_to_strangers b; playfulness b;
    protective_nature b; adaptability b; trainability b; energy b;
    barking b; stimulation_needs b ].

(** ** [load_district_lat_lng] *)

(** [{target.district_name: target for target in districts}] *)
Definition name_lookup_of (districts : list District) : gmap string District :=
  foldl (λ m target, <[district_name target := target]> m) ∅ districts.

Fixpoint lat_lng_rows (district_lookup : gmap string District)
    (district_dict : gmap Z (Q * Q)) (rows : list row)
  : result (gmap Z (Q * Q)) :=
  match rows with
  | [] => Ok district_dict
  | r :: rest =>
      name ← index r 0;
      lat_text ← index r 1;
      lat ← to_float lat_text;
      lng_text ← index r 2;
      lng ← to_float lng_text;
      district ← getitem district_lookup name;
      lat_lng_rows district_lookup
        (<[district_id district := (lat, lng)]> district_dict) rest
  end.

Definition load_district_lat_lng (file : list row) (districts : list District)
  : result (gmap Z (Q * Q)) :=
  lat_lng_rows (name_lookup_of districts) ∅ (tail file).

(** ** [load_translation_mapping] and [load_dog_images] *)

(** The loop of both loaders: [d[row[0]] = row[1]], the right-hand side
    being evaluated first. *)
Fixpoint key_value_rows (d : gmap string string) (rows : list row)
  : result (gmap string string) :=
  match rows with
  | [] => Ok d
  | r :: rest =>
      value ← index r 1;
      key ← index r 0;
      key_value_rows (<[key := value]> d) rest
  end.

Definition load_translation_mapping (file : list row)
  : result (gmap string string) :=
  key_value_rows ∅ (tail file).

Definition load_dog_images (file : list row) : result (gmap string string) :=
  key_value_rows ∅ (tail file).

(** The second column of the last row whose first column is [key]. *)
Definition last_value (key : string) (rows : list row) : option string :=
  r ← find (λ r : row, bool_decide (r !! 0%nat = Some key)) (rev rows);
  r !! 1%nat.

(** ** Further notions for the statements *)

(** No stored distance is positive. *)
Definition no_positive_distance (t : table) : Prop :=
  ∀ k q, distance_at t k = Some q → (q <= 0)%Q.

(** The row is processed into the graphs for the user [uid] and the breed
    [b]. *)
Definition row_links (dm : gmap Z District) (uid : Z) (b : string) (r : row)
  : Prop :=
  ∃ age gender district, read_row dm r = Ok (Entry uid age gender district b).

(** The soundness of the owner/breed graph: edges go both ways, link a
    breed and a user, and their end points are vertices. *)
Definition dog_graph_sound (g : Graph) : Prop :=
  ∀ x y, (x, y) ∈ g_edges g →
    (y, x) ∈ g_edges g ∧ x ∈ g_vertices g ∧ y ∈ g_vertices g ∧
    ((∃ b u, x = VBreed b ∧ y = VUser u) ∨ (∃ b u, x = VUser u ∧ y = VBreed b)).

(** The same for the weighted graph: an edge links a district and a breed,
    weighs the same both ways, at least 1, and its end points are
    vertices. *)
Definition district_graph_sound (g : WeightedGraph) : Prop :=
  ∀ x y w, w_weights g !! (x, y) = Some w →
    w_weights g !! (y, x) = Some w ∧ 1 <= w ∧
    x ∈ w_vertices g ∧ y ∈ w_vertices g ∧
    ((∃ d b, x = VDistrict d ∧ y = VBreed b) ∨
     (∃ d b, x = VBreed b ∧ y = VDistrict d)).

(** The distances stay within a range that keeps the arithmetic of the
    normalizer inside binary floating point: with every distance between
    [-2^1022] and [2^1022], the difference between the greatest and the
    least one is at most [2^1023], which binary64 holds.  The rationals of
    this model need no such bound; it is a precondition of the code. *)
Definition range_bound : Q := inject_Z (2 ^ 1022).

Definition within_range (t : table) : Prop :=
  ∀ k q, distance_at t k = Some q → (- range_bound <= q <= range_bound)%Q.

(** The invariant of the distance table under construction: origins and
    destinations are keys of the district lookup, and no destination is
    its own origin. *)
Definition table_sound (lookup : gmap Z District) (t : table) : Prop :=
  ∀ o m, t !! o = Some m →
    is_Some (lookup !! o) ∧
    ∀ d, is_Some (m !! d) → d ≠ o ∧ is_Some (lookup !! d).

(** The origin id a row of the distance file names. *)
Definition origin_of (r : row) : option Z :=
  r !! 0%nat ≫= Str.py_int.

(** ** Sample data *)

(** Two districts and the header of the ownership file. *)
Definition sample_districts : list District :=
  [ {| district_id := 10; district_name := "Altstadt" |};
    {| district_id := 20; district_name := "Seefeld" |} ].

Definition sample_header : row :=
  ["HALTER_ID"; "ALTER"; "GESCHLECHT"; "STADTKREIS"; "STADTQUARTIER"; "RASSE1"].

(** * Properties *)

(** ** The string builtins on sample texts *)

Example py_int_samples :
  Str.py_int "31" = Some 31 ∧ Str.py_int " -7 " = Some (-7) ∧
  Str.py_int "1_000" = Some 1000 ∧ Str.py_int "abc" = None ∧
  Str.py_int "" = None ∧ Str.py_int "1__0" = None ∧ Str.py_int "007" = Some 7 ∧
  Str.py_int "+5" = Some 5 ∧ Str.py_int "- 5" = None ∧
  Str.py_int (String (ascii_of_nat 28) "5") = None ∧
  Str.is_blank (String (ascii_of_nat 28) " ") = true.
Proof. repeat split; reflexivity. Qed.

Example py_float_samples :
  Str.py_float "3.5" = Some (inject_Z 3 + (5 # 10))%Q ∧
  Str.py_float "12" = Some (inject_Z 12) ∧
  Str.py_float "." = None ∧ Str.py_float "x" = None ∧
  Str.py_float "7." = Some (inject_Z 7 + (0 # 1))%Q ∧
  Str.py_float " -.5 " = Some (- (inject_Z 0 + (5 # 10)))%Q ∧
  Str.py_float "1_0.2_5" = Some (inject_Z 10 + (25 # 100))%Q ∧
  Str.py_float "1._5" = None ∧ Str.py_float "1e" = None ∧
  Str.py_float "e5" = None ∧ Str.py_float "nan" = None.
Proof. repeat split; reflexivity. Qed.

Example py_float_exponent_samples :
  (∃ q, Str.py_float "2.5e-3" = Some q ∧ (q == 25 # 10000)%Q) ∧
  (∃ q, Str.py_float "1E2" = Some q ∧ (q == 100)%Q).
Proof. split; eexists; (split; [reflexivity|]); reflexivity. Qed.

Example string_samples :
  Str.capitalize "labrador MISCHLING" = "Labrador mischling" ∧
  Str.capitalize "mischling, klein" = "Mischling, klein" ∧
  Str.contains "Mischling" "Labrador mischling" = false ∧
  Str.contains "Mischling" "Mischling, klein" = true ∧
  Str.upper "w" = "W" ∧
  Str.split "-" "20-29" = ["20"; "29"] ∧
  Str.split "|" "2:3.5|3:1" = ["2:3.5"; "3:1"] ∧
  Str.split "-" "" = [""] ∧
  Str.is_blank "  " = true ∧ Str.is_blank "" = true ∧ Str.is_blank " x" = false.
Proof. repeat split; reflexivity. Qed.

(** ** The error monad *)

Lemma bind_Ok {A B} (f : A → result B) (m : result A) (b : B) :
  m ≫= f = Ok b ↔ ∃ a, m = Ok a ∧ f a = Ok b.
Proof.
  destruct m as [a|e]; simpl; split.
  - eauto.
  - by intros (a' & [= ->] & ?).
  - done.
  - by intros (a' & ? & ?).
Qed.

Lemma index_Some {A} (l : list A) (i : nat) (x : A) :
  l !! i = Some x → index l i = Ok x.
Proof. unfold index. by intros ->. Qed.

Lemma to_int_Some (s : string) (z : Z) : Str.py_int s = Some z → to_int s = Ok z.
Proof. unfold to_int. by intros ->. Qed.

(** ** Upper-casing keeps blank text blank *)

Lemma is_space_to_upper (c : ascii) : Str.is_space (Str.to_upper c) = Str.is_space c.
Proof. by destruct c as [[] [] [] [] [] [] [] []]. Qed.

Lemma is_blank_upper (s : string) : Str.is_blank (Str.upper s) = Str.is_blank s.
Proof.
  unfold Str.is_blank, Str.upper, Str.chars.
  induction s as [|c s IH]; simpl; [done|].
  by rewrite is_space_to_upper, IH.
Qed.

(** ** The loop body of [load_dog_data], in two halves *)

Lemma process_row_read (dm : gmap Z District) (st : loader_state) (r : row) :
  process_row dm st r =
  match read_row dm r with
  | Raise e => Raise e
  | Ok Skip => Ok st
  | Ok (Entry uid age gender district dog_breed) =>
      add_entry dm st uid age gender district dog_breed
  end.
Proof.
  unfold process_row, read_row, add_entry.
  destruct (index r 0) as [uid_text|]; simpl; [|done].
  destruct (to_int uid_text) as [uid|]; simpl; [|done].
  destruct (index r 1) as [raw_age_range|]; simpl; [|done].
  destruct (Str.is_blank raw_age_range); [done|].
  destruct (index r 2) as [gender_text|]; simpl; [|done].
  destruct (Str.is_blank (Str.upper gender_text)); [done|].
  destruct (index r 4) as [did_text|]; simpl; [|done].
  destruct (to_int did_text) as [did|]; simpl; [|done].
  destruct (dm !! did) as [district|]; [|done].
  destruct (index r 5) as [breed_text|]; simpl; [|done].
  destruct (Str.contains mixed_marker (Str.capitalize breed_text)); [done|].
  destruct (index (Str.split "-" raw_age_range) 0) as [lo_text|]; simpl; [|done].
  destruct (to_int lo_text) as [lo|]; simpl; [|done].
  destruct (index (Str.split "-" raw_age_range) 1) as [hi_text|]; simpl; [|done].
  destruct (to_int hi_text) as [hi|]; simpl; [|done].
  reflexivity.
Qed.

(** ** Rows that the loop skips *)

Lemma column_before {A} (l : list A) (i j : nat) (x : A) :
  l !! j = Some x → (i ≤ j)%nat → ∃ y, l !! i = Some y.
Proof.
  intros Hj Hle. apply lookup_lt_Some in Hj.
  destruct (lookup_lt_is_Some_2 l i) as [y Hy]; [lia|eauto].
Qed.

Ltac read_column H :=
  match type of H with
  | ?r !! ?i = Some ?x => rewrite (index_Some r i x H); simpl
  end.

Ltac read_int H :=
  match type of H with
  | Str.py_int ?s = Some ?z => rewrite (to_int_Some s z H); simpl
  end.

Lemma read_row_blank_age (dm : gmap Z District) (r : row) :
  user_id_parses r → blank_age_range r → read_row dm r = Ok Skip.
Proof.
  intros (ut & uid & Hu & Hp) (at' & Ha & Hb). unfold read_row.
  read_column Hu. read_int Hp. read_column Ha. by rewrite Hb.
Qed.

Lemma read_row_blank_gender (dm : gmap Z District) (r : row) :
  user_id_parses r → blank_gender r → read_row dm r = Ok Skip.
Proof.
  intros (ut & uid & Hu & Hp) (gt & Hg & Hb). unfold read_row.
  destruct (column_before r 1 2 gt Hg) as [at' Ha]; [lia|].
  read_column Hu. read_int Hp. read_column Ha.
  destruct (Str.is_blank at'); [done|].
  read_column Hg. by rewrite is_blank_upper, Hb.
Qed.

Lemma read_row_unresolved (dm : gmap Z District) (r : row) :
  user_id_parses r → unresolved_district dm r → read_row dm r = Ok Skip.
Proof.
  intros (ut & uid & Hu & Hp) (dt & did & Hd & Hdp & Hnone). unfold read_row.
  destruct (column_before r 1 4 dt Hd) as [at' Ha]; [lia|].
  destruct (column_before r 2 4 dt Hd) as [gt Hg]; [lia|].
  read_column Hu. read_int Hp. read_column Ha.
  destruct (Str.is_blank at'); [done|].
  read_column Hg.
  destruct (Str.is_blank (Str.upper gt)); [done|].
  read_column Hd. read_int Hdp. by rewrite Hnone.
Qed.

Lemma read_row_mixed (dm : gmap Z District) (r : row) :
  user_id_parses r → district_id_parses r → mixed_breed r →
  read_row dm r = Ok Skip.
Proof.
  intros (ut & uid & Hu & Hp) (dt & did & Hd & Hdp) (bt & Hb & Hm).
  unfold read_row.
  destruct (column_before r 1 4 dt Hd) as [at' Ha]; [lia|].
  destruct (column_before r 2 4 dt Hd) as [gt Hg]; [lia|].
  read_column Hu. read_int Hp. read_column Ha.
  destruct (Str.is_blank at'); [done|].
  read_column Hg.
  destruct (Str.is_blank (Str.upper gt)); [done|].
  read_column Hd. read_int Hdp.
  destruct (dm !! did); [|done].
  read_column Hb. by rewrite Hm.
Qed.

(** C3, counterexample: a row of a mixed-breed dog whose user-id field is
    not a number is not skipped: [int(row[0])] raises before any check. *)
Lemma mixed_breed_row_counterexample :
  let r := ["abc"; "20-29"; "w"; ""; "10"; "mischling, klein"] in
  mixed_breed r ∧
  process_row (district_lookup_of sample_districts) initial_state r
    = Raise ValueError ∧
  load_dog_data [sample_header; r] sample_districts = Raise ValueError.
Proof.
  split; [|split]; [|reflexivity..].
  eexists; split; reflexivity.
Qed.

(** C3, amended: a row whose user-id and district-id fields parse as
    integers and whose capitalized breed name contains the mixed-breed
    marker is skipped without error, whatever its other fields hold: the
    graphs and the user map are left exactly as they were. *)
Theorem mixed_breed_row_skipped (dm : gmap Z District) (st : loader_state)
    (r : row) :
  user_id_parses r → district_id_parses r → mixed_breed r →
  process_row dm st r = Ok st.
Proof.
  intros Hu Hd Hm.
  by rewrite process_row_read, (read_row_mixed dm r Hu Hd Hm).
Qed.

Lemma mixed_breed_row_skipped_witness :
  let r := ["7"; "20-29"; "w"; ""; "10"; "mischling, klein"] in
  process_row (district_lookup_of sample_districts) initial_state r
    = Ok initial_state.
Proof.
  intros r. apply mixed_breed_row_skipped.
  - exists "7", 7. split; reflexivity.
  - exists "10", 10. split; reflexivity.
  - exists "mischling, klein". split; reflexivity.
Defined.

(** C7, counterexample: a row with a blank age range whose user-id field is
    not a number raises instead of being skipped. *)
Lemma blank_row_counterexample :
  let r := ["abc"; ""; "w"; ""; "10"; "labrador"] in
  blank_age_range r ∧
  process_row (district_lookup_of sample_districts) initial_state r
    = Raise ValueError ∧
  load_dog_data [sample_header; r] sample_districts = Raise ValueError.
Proof.
  split; [|split]; [|reflexivity..].
  eexists; split; reflexivity.
Qed.

(** C7, amended: a row whose user-id field parses as an integer and that
    has a blank age range, a blank gender, or an integer district id that
    is no key of the district lookup is skipped without raising; both
    graphs and the user map are left exactly as they were. *)
Theorem filtered_row_skipped (dm : gmap Z District) (st : loader_state)
    (r : row) :
  user_id_parses r →
  blank_age_range r ∨ blank_gender r ∨ unresolved_district dm r →
  process_row dm st r = Ok st.
Proof.
  intros Hu H. rewrite process_row_read.
  destruct H as [H|[H|H]].
  - by rewrite (read_row_blank_age dm r Hu H).
  - by rewrite (read_row_blank_gender dm r Hu H).
  - by rewrite (read_row_unresolved dm r Hu H).
Qed.

Lemma filtered_row_skipped_witness :
  let dm := district_lookup_of sample_districts in
  process_row dm initial_state ["7"; " "; "w"; ""; "10"; "labrador"]
    = Ok initial_state ∧
  process_row dm initial_state ["7"; "20-29"; ""; ""; "10"; "labrador"]
    = Ok initial_state ∧
  process_row dm initial_state ["7"; "20-29"; "w"; ""; "30"; "labrador"]
    = Ok initial_state.
Proof.
  intros dm. split; [|split]; apply filtered_row_skipped.
  - exists "7", 7. split; reflexivity.
  - left. exists " ". split; reflexivity.
  - exists "7", 7. split; reflexivity.
  - right; left. exists "". split; reflexivity.
  - exists "7", 7. split; reflexivity.
  - right; right. exists "30", 30. repeat split; reflexivity.
Defined.

(** ** The user map never holds a key of the district lookup *)

Lemma initial_state_disjoint (dm : gmap Z District) : users_disjoint dm initial_state.
Proof. intros k [u Hu]. simpl in Hu. by rewrite lookup_empty in Hu. Qed.

(** A user id that is no district id: the record is built from this row
    and written to the user map, whatever the map held. *)
Lemma add_entry_fresh (dm : gmap Z District) (st : loader_state)
    (uid age : Z) (gender : string) (district : District) (breed : string) :
  dm !! uid = None →
  add_entry dm st uid age gender district breed =
  let u := {| user_id := uid; user_age := age;
              user_gender := gender; user_district := district |} in
  let dv := VDistrict (district_id district) in
  let wg1 :=
    if W.contains dv (district_graph st) then district_graph st
    else W.add_vertex dv (district_graph st) in
  let wg2 :=
    if W.contains (VBreed breed) wg1 then wg1
    else W.add_vertex (VBreed breed) wg1 in
  Ok {| dog_graph :=
          G.add_edge (VBreed breed) (VUser uid)
            (G.add_vertex (VBreed breed)
               (G.add_vertex (VUser uid) (dog_graph st)));
        district_graph :=
          W.add_edge dv (VBreed breed)
            (W.get_weight dv (VBreed breed) wg2 + 1) wg2;
        users := <[uid := u]> (users st) |}.
Proof.
  intros Hnone. unfold add_entry, getitem. rewrite Hnone.
  by rewrite lookup_insert_eq.
Qed.

(** A user id that is a district id: no record is built, and the access to
    the user map fails. *)
Lemma add_entry_collision (dm : gmap Z District) (st : loader_state)
    (uid age : Z) (gender : string) (district : District) (breed : string) :
  is_Some (dm !! uid) → users_disjoint dm st →
  add_entry dm st uid age gender district breed = Raise KeyError.
Proof.
  intros [d Hd] Hdis. unfold add_entry, getitem. rewrite Hd.
  destruct (users st !! uid) as [u|] eqn:Hu; [|done].
  specialize (Hdis uid (mk_is_Some _ _ Hu)). congruence.
Qed.

Lemma add_entry_disjoint (dm : gmap Z District) (st st' : loader_state)
    (uid age : Z) (gender : string) (district : District) (breed : string) :
  users_disjoint dm st →
  add_entry dm st uid age gender district breed = Ok st' →
  users_disjoint dm st' ∧ dm !! uid = None.
Proof.
  intros Hdis H.
  destruct (dm !! uid) as [d|] eqn:Hd.
  - rewrite add_entry_collision in H; [done|by rewrite Hd|done].
  - rewrite add_entry_fresh in H by done. simpl in H. injection H as <-.
    split; [|done]. intros k. simpl.
    destruct (decide (uid = k)) as [<-|Hne]; [done|].
    rewrite lookup_insert_ne by done. apply Hdis.
Qed.

Lemma process_row_disjoint (dm : gmap Z District) (st st' : loader_state) (r : row) :
  users_disjoint dm st → process_row dm st r = Ok st' → users_disjoint dm st'.
Proof.
  intros Hdis. rewrite process_row_read.
  destruct (read_row dm r) as [[|uid age g d b]|e]; [|intros H|done].
  - by intros [= <-].
  - by destruct (add_entry_disjoint _ _ _ _ _ _ _ _ Hdis H).
Qed.

Lemma process_rows_disjoint (dm : gmap Z District) (rows : list row) :
  ∀ st st', users_disjoint dm st → process_rows dm st rows = Ok st' →
            users_disjoint dm st'.
Proof.
  induction rows as [|r rows IH]; simpl; intros st st' Hdis H.
  - by injection H as <-.
  - apply bind_Ok in H as (st1 & H1 & H2).
    eapply IH; [|done]. by eapply process_row_disjoint.
Qed.

Lemma process_rows_app (dm : gmap Z District) (pre post : list row) :
  ∀ st, process_rows dm st (pre ++ post) =
        process_rows dm st pre ≫= λ st', process_rows dm st' post.
Proof.
  induction pre as [|r pre IH]; simpl; intros st; [done|].
  destruct (process_row dm st r) as [st1|e]; simpl; [apply IH|done].
Qed.

(** C10, counterexample: when a row before the colliding one is malformed,
    the load raises the [ValueError] of that row, not a [KeyError]. *)
Lemma colliding_row_counterexample :
  let r := ["10"; "20-29"; "w"; ""; "10"; "labrador"] in
  collides (district_lookup_of sample_districts) r ∧
  load_dog_data
    [sample_header; ["abc"; "20-29"; "w"; ""; "10"; "labrador"]; r]
    sample_districts = Raise ValueError.
Proof.
  split; [|reflexivity].
  exists 10, 24, "W", {| district_id := 10; district_name := "Altstadt" |},
    "Labrador".
  split; [reflexivity|]. by eexists.
Qed.

(** C10, amended: when the ownership file holds a row that passes every
    check and whose user id is a key of the district lookup, the load
    returns no graphs.  It raises [KeyError] at the access to the user map
    for that row, unless a row before it has already raised, and then it
    raises that earlier error. *)
Theorem colliding_row_raises (districts : list District) (header : row)
    (pre : list row) (r : row) (post : list row) :
  collides (district_lookup_of districts) r →
  load_dog_data (header :: pre ++ r :: post) districts =
  match process_rows (district_lookup_of districts) initial_state pre with
  | Ok _ => Raise KeyError
  | Raise e => Raise e
  end.
Proof.
  intros (uid & age & g & d & b & Hread & Hkey).
  unfold load_dog_data. simpl tail. rewrite process_rows_app.
  destruct (process_rows _ initial_state pre) as [st|e] eqn:Hpre; [|done].
  simpl. rewrite process_row_read, Hread.
  rewrite add_entry_collision; [done..|].
  eapply process_rows_disjoint; [apply initial_state_disjoint|done].
Qed.

Lemma colliding_row_raises_witness :
  let r := ["10"; "20-29"; "w"; ""; "10"; "labrador"] in
  collides (district_lookup_of sample_districts) r ∧
  load_dog_data
    (sample_header :: [["7"; "20-29"; "w"; ""; "10"; "labrador"]] ++ r :: [])
    sample_districts = Raise KeyError.
Proof.
  assert (H : collides (district_lookup_of sample_districts)
                ["10"; "20-29"; "w"; ""; "10"; "labrador"]).
  { exists 10, 24, "W", {| district_id := 10; district_name := "Altstadt" |},
      "Labrador".
    split; [reflexivity|]. by eexists. }
  split; [exact H|].
  exact (colliding_row_raises sample_districts sample_header
           [["7"; "20-29"; "w"; ""; "10"; "labrador"]] _ [] H).
Defined.

(** ** The user record is rebuilt on every row *)

(** Whenever a row is processed into the graphs, the record kept for its
    user id is the one built from that very row. *)
Lemma processed_row_sets_user (dm : gmap Z District) (st st' : loader_state)
    (r : row) (uid age : Z) (gender : string) (district : District)
    (breed : string) :
  users_disjoint dm st →
  read_row dm r = Ok (Entry uid age gender district breed) →
  process_row dm st r = Ok st' →
  users st' !! uid = Some {| user_id := uid; user_age := age;
                             user_gender := gender; user_district := district |}.
Proof.
  intros Hdis Hread. rewrite process_row_read, Hread. intros H.
  destruct (add_entry_disjoint _ _ _ _ _ _ _ _ Hdis H) as [_ Hnone].
  rewrite add_entry_fresh in H by done. injection H as <-. simpl.
  apply lookup_insert_eq.
Qed.

(** C4, the code at the failing input: two rows of user 1001.  The record
    created on the first row (age 24, gender W, Altstadt) is replaced on
    the second row by a new one (age 64, gender M, Seefeld). *)
Theorem user_record_replaced :
  let dm := district_lookup_of sample_districts in
  ∃ st1 st2,
    process_row dm initial_state ["1001"; "20-29"; "w"; ""; "10"; "labrador"]
      = Ok st1 ∧
    users st1 !! 1001 =
      Some {| user_id := 1001; user_age := 24; user_gender := "W";
              user_district := {| district_id := 10; district_name := "Altstadt" |} |} ∧
    process_row dm st1 ["1001"; "60-69"; "m"; ""; "20"; "pudel"] = Ok st2 ∧
    users st2 !! 1001 =
      Some {| user_id := 1001; user_age := 64; user_gender := "M";
              user_district := {| district_id := 20; district_name := "Seefeld" |} |}.
Proof.
  intros dm.
  destruct (process_row dm initial_state
              ["1001"; "20-29"; "w"; ""; "10"; "labrador"]) as [st1|] eqn:H1;
    [|by vm_compute in H1].
  destruct (process_row dm st1 ["1001"; "60-69"; "m"; ""; "20"; "pudel"])
    as [st2|] eqn:H2.
  - exists st1, st2. split; [done|]. split; [|split; [done|]].
    + apply (processed_row_sets_user dm initial_state st1
               ["1001"; "20-29"; "w"; ""; "10"; "labrador"] _ _ _ _ "Labrador");
        [apply initial_state_disjoint|reflexivity|exact H1].
    + apply (processed_row_sets_user dm st1 st2
               ["1001"; "60-69"; "m"; ""; "20"; "pudel"] _ _ _ _ "Pudel");
        [|reflexivity|exact H2].
      eapply process_row_disjoint; [apply initial_state_disjoint|exact H1].
  - exfalso. rewrite process_row_read in H2.
    assert (Hr : read_row dm ["1001"; "60-69"; "m"; ""; "20"; "pudel"]
                 = Ok (Entry 1001 64 "M"
                         {| district_id := 20; district_name := "Seefeld" |}
                         "Pudel")) by reflexivity.
    rewrite Hr in H2. rewrite add_entry_fresh in H2 by reflexivity. done.
Qed.

(** ** The unweighted graph does not count edges *)

Lemma add_vertex_twice (v : vertex) (g : Graph) :
  G.add_vertex v (G.add_vertex v g) = G.add_vertex v g.
Proof.
  unfold G.add_vertex. simpl. f_equal.
  apply set_eq. intros x. rewrite !elem_of_union. tauto.
Qed.

Lemma add_vertex_commute (v w : vertex) (g : Graph) :
  G.add_vertex v (G.add_vertex w g) = G.add_vertex w (G.add_vertex v g).
Proof.
  unfold G.add_vertex. simpl. f_equal.
  apply set_eq. intros x. rewrite !elem_of_union. tauto.
Qed.

Lemma add_edge_twice (v w : vertex) (g : Graph) :
  G.add_edge v w (G.add_edge v w g) = G.add_edge v w g.
Proof.
  unfold G.add_edge. simpl. f_equal.
  apply set_eq. intros x. rewrite !elem_of_union. tauto.
Qed.

Lemma add_vertex_edge (u v w : vertex) (g : Graph) :
  G.add_vertex u (G.add_edge v w g) = G.add_edge v w (G.add_vertex u g).
Proof. done. Qed.

(** Adding the user, the breed and their edge a second time changes
    nothing. *)
Lemma link_twice (u b : vertex) (g : Graph) :
  let link g := G.add_edge b u (G.add_vertex b (G.add_vertex u g)) in
  link (link g) = link g.
Proof.
  simpl. rewrite !add_vertex_edge, add_edge_twice.
  by rewrite (add_vertex_commute u b), !add_vertex_twice.
Qed.

(** C9: two valid rows of one user and one breed (the same row twice, for
    one) leave one edge, not two.  Both rows are processed without error;
    the first adds the user, the breed and the one edge between them, kept
    in both directions, to what the graph held; the second changes
    nothing: the graph after both rows is the graph after the first.  A
    valid row is one that passes every check and whose user id is no key
    of the district lookup. *)
Theorem duplicate_row_same_graph (dm : gmap Z District) (st : loader_state)
    (r1 r2 : row) (uid age1 age2 : Z) (gender1 gender2 : string)
    (district1 district2 : District) (b : string) :
  read_row dm r1 = Ok (Entry uid age1 gender1 district1 b) →
  read_row dm r2 = Ok (Entry uid age2 gender2 district2 b) →
  dm !! uid = None →
  ∃ st1 st2,
    process_row dm st r1 = Ok st1 ∧
    process_row dm st1 r2 = Ok st2 ∧
    g_vertices (dog_graph st1) =
      {[VBreed b; VUser uid]} ∪ g_vertices (dog_graph st) ∧
    g_edges (dog_graph st1) =
      {[(VBreed b, VUser uid); (VUser uid, VBreed b)]} ∪ g_edges (dog_graph st) ∧
    dog_graph st2 = dog_graph st1.
Proof.
  intros H1 H2 Hnone.
  rewrite !process_row_read, H1, add_entry_fresh by done. simpl.
  eexists. eexists. split; [reflexivity|].
  rewrite process_row_read, H2, add_entry_fresh by done. simpl.
  split; [reflexivity|]. simpl. split; [|split; [done|]].
  - apply set_eq. intros x. rewrite !elem_of_union, !elem_of_singleton. tauto.
  - apply (link_twice (VUser uid) (VBreed b)).
Qed.

Lemma duplicate_row_same_graph_witness :
  let dm := district_lookup_of sample_districts in
  let r := ["1001"; "20-29"; "w"; ""; "10"; "labrador"] in
  ∃ st1 st2,
    process_row dm initial_state r = Ok st1 ∧
    process_row dm st1 r = Ok st2 ∧
    g_edges (dog_graph st1) =
      {[(VBreed "Labrador", VUser 1001); (VUser 1001, VBreed "Labrador")]} ∪ ∅ ∧
    dog_graph st2 = dog_graph st1.
Proof.
  intros dm r.
  destruct (duplicate_row_same_graph dm initial_state r r 1001 24 24 "W" "W"
              {| district_id := 10; district_name := "Altstadt" |}
              {| district_id := 10; district_name := "Altstadt" |} "Labrador")
    as (st1 & st2 & Hp1 & Hp2 & _ & He & Hg); [reflexivity..|].
  by exists st1, st2.
Defined.

(** ** The weights of the district/breed graph count the rows *)

Ltac read_step H :=
  match type of H with
  | context [match ?l !! ?i with _ => _ end] =>
      destruct (l !! i) eqn:?; simpl in H; try discriminate H
  | context [match Str.py_int ?s with _ => _ end] =>
      destruct (Str.py_int s) eqn:?; simpl in H; try discriminate H
  | context [if ?x then _ else _] =>
      destruct x eqn:?; simpl in H; try discriminate H
  end.

Ltac read_cases H :=
  unfold read_row, index, to_int, mbind, result_bind in H;
  repeat read_step H.

Ltac use_equations :=
  repeat match goal with
         | E : ?x = _ |- context [?x] => rewrite E; simpl
         end.

Lemma counts_for_skip (dm : gmap Z District) (d : Z) (b : string) (r : row) :
  read_row dm r = Ok Skip → counts_for dm d b r = false.
Proof.
  intros H. read_cases H; rewrite ?is_blank_upper in *;
    unfold counts_for; use_equations; by rewrite ?andb_false_r.
Qed.

Lemma counts_for_entry (dm : gmap Z District) (d : Z) (b : string) (r : row)
    (uid age : Z) (gender : string) (district : District) (breed : string) :
  read_row dm r = Ok (Entry uid age gender district breed) →
  counts_for dm d b r =
  bool_decide (breed = b) && Z.eqb (district_id district) d.
Proof.
  intros H. read_cases H; rewrite ?is_blank_upper in *.
  injection H as <- <- <- <- <-.
  unfold counts_for; use_equations. done.
Qed.


Lemma lookup_of_foldl (l : list District) :
  ∀ (m : gmap Z District),
    (∀ k d, m !! k = Some d → district_id d = k) →
    ∀ k d, foldl (λ m target, <[district_id target := target]> m) m l !! k = Some d →
           district_id d = k.
Proof.
  induction l as [|x l IH]; simpl; intros m Hm k d; [apply Hm|].
  apply IH. intros k' d'.
  destruct (decide (district_id x = k')) as [<-|Hne].
  - rewrite lookup_insert_eq. by intros [= <-].
  - rewrite lookup_insert_ne by done. apply Hm.
Qed.

(** The lookup built from the district set maps an id to a District of
    that id. *)
Lemma district_lookup_of_id (districts : list District) (k : Z) (d : District) :
  district_lookup_of districts !! k = Some d → district_id d = k.
Proof.
  apply lookup_of_foldl. intros k' d'. by rewrite lookup_empty.
Qed.

Lemma get_weight_maybe_add (x y v : vertex) (g : WeightedGraph) :
  W.get_weight x y (if W.contains v g then g else W.add_vertex v g)
  = W.get_weight x y g.
Proof. by destruct (W.contains v g). Qed.

Lemma get_weight_add_edge (d d' : Z) (b b' : string) (w : Z) (g : WeightedGraph) :
  W.get_weight (VDistrict d) (VBreed b)
    (W.add_edge (VDistrict d') (VBreed b') w g)
  = if bool_decide (b' = b) && Z.eqb d' d then w
    else W.get_weight (VDistrict d) (VBreed b) g.
Proof.
  unfold W.get_weight, W.add_edge. simpl.
  rewrite lookup_insert_ne by done.
  destruct (Z.eqb_spec d' d) as [->|Hd]; case_bool_decide as Hb; simpl;
    try (rewrite lookup_insert_ne by congruence; done).
  subst. by rewrite lookup_insert_eq.
Qed.

Lemma add_entry_weight (dm : gmap Z District) (st st' : loader_state)
    (uid age : Z) (gender : string) (district : District) (breed : string)
    (d : Z) (b : string) :
  users_disjoint dm st →
  add_entry dm st uid age gender district breed = Ok st' →
  W.get_weight (VDistrict d) (VBreed b) (district_graph st') =
  W.get_weight (VDistrict d) (VBreed b) (district_graph st) +
  (if bool_decide (breed = b) && Z.eqb (district_id district) d then 1 else 0).
Proof.
  intros Hdis H.
  destruct (add_entry_disjoint _ _ _ _ _ _ _ _ Hdis H) as [_ Hnone].
  rewrite add_entry_fresh in H by done. injection H as <-. simpl.
  rewrite get_weight_add_edge.
  destruct (bool_decide (breed = b) && Z.eqb (district_id district) d) eqn:Hc.
  - apply andb_true_iff in Hc as [Hb Hd].
    apply bool_decide_eq_true in Hb as ->. apply Z.eqb_eq in Hd as <-.
    by rewrite !get_weight_maybe_add.
  - rewrite !get_weight_maybe_add. lia.
Qed.

Lemma process_row_weight (dm : gmap Z District) (st st' : loader_state)
    (r : row) (d : Z) (b : string) :
  users_disjoint dm st →
  process_row dm st r = Ok st' →
  W.get_weight (VDistrict d) (VBreed b) (district_graph st') =
  W.get_weight (VDistrict d) (VBreed b) (district_graph st) +
  (if counts_for dm d b r then 1 else 0).
Proof.
  intros Hdis. rewrite process_row_read.
  destruct (read_row dm r) as [[|uid age g dist breed]|e] eqn:Hread; [| |done].
  - intros [= <-]. rewrite (counts_for_skip dm d b r Hread). lia.
  - intros H. rewrite (counts_for_entry dm d b r _ _ _ _ _ Hread).
    by apply (add_entry_weight dm st st' uid age g).
Qed.

Lemma process_rows_weight (dm : gmap Z District) (d : Z) (b : string)
    (rows : list row) :
  ∀ st st',
    users_disjoint dm st →
    process_rows dm st rows = Ok st' →
    W.get_weight (VDistrict d) (VBreed b) (district_graph st') =
    W.get_weight (VDistrict d) (VBreed b) (district_graph st) +
    count_rows dm d b rows.
Proof.
  unfold count_rows.
  induction rows as [|r rows IH]; simpl; intros st st' Hdis H.
  - injection H as <-. lia.
  - apply bind_Ok in H as (st1 & H1 & H2).
    rewrite (IH st1 st') by eauto using process_row_disjoint.
    rewrite (process_row_weight dm st st1 r d b Hdis H1).
    rewrite filter_cons.
    destruct (decide (counts_for dm d b r = true)) as [Hc|Hc].
    + rewrite Hc. simpl length. lia.
    + apply not_true_is_false in Hc. rewrite Hc. lia.
Qed.

(** C6: when the load returns, the weight of the edge between the district
    of id [d] and the breed [b] is the number of rows of the file that are
    not skipped, resolve to that district and carry that capitalized breed
    name; an edge no row adds reads as weight 0. *)
Theorem district_weight_counts_rows (file : list row) (districts : list District)
    (g : Graph) (wg : WeightedGraph) (d : Z) (b : string) :
  load_dog_data file districts = Ok (g, wg) →
  W.get_weight (VDistrict d) (VBreed b) wg =
  count_rows (district_lookup_of districts) d b (tail file).
Proof.
  unfold load_dog_data. intros H.
  apply bind_Ok in H as (st & Hrows & [= <- <-]).
  rewrite (process_rows_weight _ d b _ initial_state st
             (initial_state_disjoint _) Hrows).
  unfold W.get_weight. simpl. by rewrite lookup_empty.
Qed.

Lemma district_weight_counts_rows_witness :
  let file :=
    [ sample_header;
      ["1"; "20-29"; "w"; ""; "10"; "labrador"];
      ["2"; "30-39"; "m"; ""; "10"; "Labrador"];
      ["3"; ""; "m"; ""; "10"; "labrador"];
      ["1"; "20-29"; "w"; ""; "10"; "LABRADOR"];
      ["4"; "40-49"; "w"; ""; "20"; "labrador"] ] in
  ∃ g wg,
    load_dog_data file sample_districts = Ok (g, wg) ∧
    W.get_weight (VDistrict 10) (VBreed "Labrador") wg = 3.
Proof.
  intros file.
  destruct (load_dog_data file sample_districts) as [[g wg]|] eqn:H;
    [|by vm_compute in H].
  exists g, wg. split; [done|].
  exact (district_weight_counts_rows file sample_districts g wg 10 "Labrador" H).
Defined.

(** ** [load_district_data]: the first row of an id wins *)

Lemma find_district_app (id : Z) (l1 l2 : list District) :
  find_district id (l1 ++ l2) =
  match find_district id l1 with
  | Some d => Some d
  | None => find_district id l2
  end.
Proof.
  unfold find_district. induction l1 as [|x l1 IH]; simpl; [done|].
  by destruct (Z.eqb (district_id x) id).
Qed.

Lemma existsb_find_district (d : District) (s : list District) :
  existsb (district_eqb d) s = true ↔ is_Some (find_district (district_id d) s).
Proof.
  unfold find_district, district_eqb.
  induction s as [|x s IH]; simpl.
  - split; [done|by intros [? ?]].
  - rewrite (Z.eqb_sym (district_id x)).
    destruct (Z.eqb (district_id d) (district_id x)); simpl; [|done].
    split; [by eexists|done].
Qed.

Lemma find_district_id (id : Z) (l : list District) (d : District) :
  find_district id l = Some d → district_id d = id.
Proof.
  unfold find_district. induction l as [|x l IH]; simpl; [done|].
  destruct (Z.eqb_spec (district_id x) id); [by intros [= <-]|done].
Qed.

Lemma find_district_add (id : Z) (d : District) (s : list District) :
  find_district id (district_set_add d s) = find_district id (s ++ [d]).
Proof.
  unfold district_set_add.
  destruct (existsb (district_eqb d) s) eqn:Hex; [|done].
  apply existsb_find_district in Hex as [d' Hd'].
  rewrite find_district_app.
  destruct (find_district id s) as [x|] eqn:Hx; [done|].
  unfold find_district at 1. simpl.
  destruct (Z.eqb_spec (district_id d) id) as [Heq|]; [|done].
  rewrite Heq in Hd'. congruence.
Qed.

Lemma district_set_add_NoDup (d : District) (s : list District) :
  NoDup (district_id <$> s) → NoDup (district_id <$> district_set_add d s).
Proof.
  intros Hs. unfold district_set_add.
  destruct (existsb (district_eqb d) s) eqn:Hex; [done|].
  rewrite fmap_app. apply NoDup_app. split; [done|]. split.
  - intros id Hin Hin'. apply list_elem_of_singleton in Hin' as ->.
    apply list_elem_of_fmap in Hin as (x & Hid & Hx).
    assert (existsb (district_eqb d) s = true); [|congruence].
    apply existsb_exists. exists x. split; [by apply list_elem_of_In|].
    unfold district_eqb. apply Z.eqb_eq. done.
  - apply NoDup_singleton.
Qed.

Lemma load_district_rows_spec (rows : list row) :
  ∀ (s ds : list District),
    NoDup (district_id <$> s) →
    load_district_rows s rows = Ok ds →
    NoDup (district_id <$> ds) ∧
    ∃ parsed,
      mapM row_district rows = Some parsed ∧
      ∀ id, find_district id ds = find_district id (s ++ parsed).
Proof.
  induction rows as [|r rows IH]; simpl; intros s ds Hs H.
  - injection H as <-. split; [done|]. exists []. by rewrite app_nil_r.
  - unfold index, to_int in H.
    destruct (r !! 1%nat) as [id_text|] eqn:E1; simpl in H; [|done].
    destruct (Str.py_int id_text) as [id|] eqn:E2; simpl in H; [|done].
    destruct (r !! 2%nat) as [name|] eqn:E3; simpl in H; [|done].
    destruct (IH _ _ (district_set_add_NoDup _ _ Hs) H)
      as (Hnd & parsed & Hparsed & Hfind).
    split; [done|].
    exists ({| district_id := id; district_name := name |} :: parsed). split.
    + assert (row_district r =
              Some {| district_id := id; district_name := name |}) as ->.
      { unfold row_district. rewrite E1. simpl. rewrite E2. simpl.
        by rewrite E3. }
      simpl. by rewrite Hparsed.
    + intros k. rewrite Hfind, !find_district_app, find_district_add.
      rewrite find_district_app. destruct (find_district k s); [done|].
      unfold find_district. simpl. by destruct (Z.eqb id k).
Qed.

(** C8, counterexample: two rows carry the id 31, with the names A and B.
    The result holds one District of id 31, and its name is A, the name
    parsed first, not B, the name parsed last. *)
Lemma district_name_counterexample :
  let file := [ ["BFS"; "QNR"; "QNAME"];
                ["261031"; "31"; "A"];
                ["261031"; "31"; "B"] ] in
  ∃ ds, load_district_data file = Ok ds ∧
        district_name <$> find_district 31 ds = Some "A" ∧
        last_parsed_name 31 file = Some "B" ∧
        district_name <$> find_district 31 ds ≠ last_parsed_name 31 file.
Proof.
  eexists. split; [reflexivity|]. by repeat split.
Qed.

(** C8, amended: the Districts of the result have pairwise distinct ids,
    so rows with one id collapse to one District, and for every id the
    District kept is the one of the first row that carries the id: a later
    row with the same id changes nothing. *)
Theorem first_district_kept (file : list row) (ds : list District) :
  load_district_data file = Ok ds →
  NoDup (district_id <$> ds) ∧
  ∃ parsed,
    mapM row_district (tail file) = Some parsed ∧
    ∀ id, find_district id ds = find_district id parsed.
Proof.
  intros H. apply (load_district_rows_spec (tail file) [] ds); [|done].
  apply NoDup_nil_2.
Qed.

Lemma first_district_kept_witness :
  let file := [ ["BFS"; "QNR"; "QNAME"];
                ["261031"; "31"; "A"];
                ["261031"; "31"; "B"];
                ["261032"; "32"; "C"] ] in
  ∃ ds, load_district_data file = Ok ds ∧ NoDup (district_id <$> ds) ∧
        find_district 31 ds =
          Some {| district_id := 31; district_name := "A" |}.
Proof.
  intros file.
  destruct (load_district_data file) as [ds|] eqn:H; [|by vm_compute in H].
  destruct (first_district_kept file ds H) as (Hnd & parsed & Hp & Hfind).
  exists ds. split; [done|]. split; [done|].
  rewrite Hfind. vm_compute in Hp. injection Hp as <-. reflexivity.
Defined.

(** ** [get_raw_district_distances]: unknown ids *)

(** A row whose origin id is an integer that is no key of the district
    lookup raises: the lookup is a subscript, and the guard after it is
    never reached. *)
Lemma unknown_origin_raises (lookup : gmap Z District) (t : table) (r : row)
    (text : string) (oid : Z) :
  r !! 0%nat = Some text → Str.py_int text = Some oid → lookup !! oid = None →
  process_distance_row lookup t r = Raise KeyError.
Proof.
  intros Hr Hp Hnone. unfold process_distance_row, getitem.
  read_column Hr. read_int Hp. by rewrite Hnone.
Qed.

(** An entry whose destination id is an integer that is no key of the
    district lookup raises as well. *)
Lemma unknown_destination_raises (lookup : gmap Z District) (origin : District)
    (dd : gmap Z Q) (mapping id_text distance_text : string) (did : Z) (q : Q) :
  Str.split ":" mapping !! 0%nat = Some id_text →
  Str.py_int id_text = Some did →
  Str.split ":" mapping !! 1%nat = Some distance_text →
  Str.py_float distance_text = Some q →
  lookup !! did = None →
  process_mapping lookup origin dd mapping = Raise KeyError.
Proof.
  intros H0 Hp H1 Hf Hnone. unfold process_mapping, getitem, to_float.
  read_column H0. read_int Hp. read_column H1. rewrite Hf. simpl.
  by rewrite Hnone.
Qed.

(** An entry whose destination is the origin is dropped without error. *)
Lemma self_destination_dropped (lookup : gmap Z District) (origin : District)
    (dd : gmap Z Q) (mapping id_text distance_text : string) (q : Q) :
  Str.split ":" mapping !! 0%nat = Some id_text →
  Str.py_int id_text = Some (district_id origin) →
  Str.split ":" mapping !! 1%nat = Some distance_text →
  Str.py_float distance_text = Some q →
  lookup !! district_id origin = Some origin →
  process_mapping lookup origin dd mapping = Ok dd.
Proof.
  intros H0 Hp H1 Hf Hsome. unfold process_mapping, getitem, to_float.
  read_column H0. read_int Hp. read_column H1. rewrite Hf. simpl.
  rewrite Hsome. simpl. unfold district_eqb. by rewrite Z.eqb_refl.
Qed.

(** C5, the code at the failing inputs: with the districts 10 and 20, a row
    of the unknown origin 30 raises [KeyError], and so does a row of origin
    10 that lists the unknown destination 30; a row that lists its own
    origin drops that entry and keeps the other. *)
Theorem unknown_district_raises :
  let header := ["origin"; "distances"] in
  get_raw_district_distances sample_districts [header; ["30"; "10:1.5"]]
    = Raise KeyError ∧
  get_raw_district_distances sample_districts [header; ["10"; "20:3.5|30:1.5"]]
    = Raise KeyError ∧
  ∃ t, get_raw_district_distances sample_districts
         [header; ["10"; "10:0|20:3.5"]] = Ok t ∧
       distance_at t (10, 10) = None ∧
       distance_at t (10, 20) = Some (inject_Z 3 + (5 # 10))%Q.
Proof.
  split; [reflexivity|]. split; [reflexivity|].
  eexists. split; [reflexivity|]. split; reflexivity.
Qed.

(** ** [normalize_district_distances] *)

(** *** The pairs the loops visit *)

Lemma elem_of_pairs_of (t : table) (k : Z * Z) :
  k ∈ pairs_of t ↔ is_Some (distance_at t k).
Proof.
  unfold pairs_of, distance_at. rewrite list_elem_of_bind. split.
  - intros ([o m] & Hin & Hom). apply elem_of_map_to_list in Hom.
    apply list_elem_of_fmap in Hin as (d & -> & Hd).
    apply list_elem_of_fmap in Hd as ([d' q] & -> & Hq).
    apply elem_of_map_to_list in Hq. simpl. rewrite Hom. simpl. by eexists.
  - destruct k as [o d]. simpl. intros [q Hq].
    destruct (t !! o) as [m|] eqn:Hm; simpl in Hq; [|done].
    exists (o, m). split; [|by apply elem_of_map_to_list].
    apply list_elem_of_fmap. exists d. split; [done|].
    apply list_elem_of_fmap. exists (d, q). split; [done|].
    by apply elem_of_map_to_list.
Qed.

Lemma NoDup_pairs_of (t : table) : NoDup (pairs_of t).
Proof.
  unfold pairs_of. apply NoDup_bind.
  - intros [o1 m1] [o2 m2] k H1 H2 Hk1 Hk2.
    apply list_elem_of_fmap in Hk1 as (d1 & -> & _).
    apply list_elem_of_fmap in Hk2 as (d2 & [= <- _] & _).
    apply elem_of_map_to_list in H1, H2. congruence.
  - intros [o m] _. apply NoDup_fmap_2; [|apply NoDup_fst_map_to_list].
    by intros d1 d2 [= ->].
  - apply NoDup_map_to_list.
Qed.

(** *** Reading and writing one entry *)

Lemma distance_at_store_eq (k : Z * Z) (v : Q) (t : table) :
  distance_at (store_distance k v t) k = Some v.
Proof.
  unfold distance_at, store_distance. rewrite lookup_insert_eq. simpl.
  by rewrite lookup_insert_eq.
Qed.

Lemma distance_at_store_ne (k k' : Z * Z) (v : Q) (t : table) :
  k ≠ k' → distance_at (store_distance k v t) k' = distance_at t k'.
Proof.
  destruct k as [o d], k' as [o' d']. unfold distance_at, store_distance. simpl.
  intros Hne. destruct (decide (o = o')) as [<-|Ho].
  - rewrite lookup_insert_eq. simpl.
    rewrite lookup_insert_ne by congruence.
    by destruct (t !! o).
  - by rewrite lookup_insert_ne.
Qed.

(** *** The first pair of loops *)

Lemma py_min_le (a : Q) (b : option Q) :
  (py_min a b <= a)%Q ∧ (∀ q, b = Some q → py_min a b <= q)%Q ∧
  (py_min a b = a ∨ b = Some (py_min a b)).
Proof.
  unfold py_min. destruct b as [b|].
  - destruct (Qle_bool a b) eqn:Hle.
    + apply Qle_bool_iff in Hle. repeat split; [lra| |by left].
      by intros q [= <-].
    + assert (¬ (a <= b)%Q) by (rewrite <- Qle_bool_iff; congruence).
      repeat split; [lra| |by right]. intros q [= <-]. lra.
  - repeat split; [lra|done|by left].
Qed.

Lemma py_max_ge (a b : Q) :
  (a <= py_max a b)%Q ∧ (b <= py_max a b)%Q ∧ (py_max a b = a ∨ py_max a b = b).
Proof.
  unfold py_max. destruct (Qle_bool b a) eqn:Hle.
  - apply Qle_bool_iff in Hle. repeat split; [lra|done|by left].
  - assert (¬ (b <= a)%Q) by (rewrite <- Qle_bool_iff; congruence).
    repeat split; [lra|lra|by right].
Qed.

(** On pairs that are no self pairs and are all present, the scan returns:
    its minimum is below every distance seen and is one of them (or the
    one it started from), and likewise for its maximum. *)
Lemma scan_distances_spec (t : table) (ks : list (Z * Z)) :
  ∀ acc,
    (∀ k, k ∈ ks → k.1 ≠ k.2 ∧ is_Some (distance_at t k)) →
    ∃ mn mx,
      scan_distances t acc ks = Ok (mn, mx) ∧
      (∀ k q, k ∈ ks → distance_at t k = Some q →
              ∃ m, mn = Some m ∧ (m <= q <= mx)%Q) ∧
      (mn = acc.1 ∨ ∃ k m, k ∈ ks ∧ distance_at t k = Some m ∧ mn = Some m) ∧
      (mx = acc.2 ∨ ∃ k, k ∈ ks ∧ distance_at t k = Some mx) ∧
      (acc.2 <= mx)%Q ∧
      (∀ a, acc.1 = Some a → ∃ m, mn = Some m ∧ (m <= a)%Q).
Proof.
  induction ks as [|k ks IH]; intros [mn0 mx0] Hks; simpl.
  - exists mn0, mx0. split; [done|]. split; [by intros k q Hk; inv Hk|].
    split; [by left|]. split; [by left|]. split; [lra|]. intros a ->.
    exists a. split; [done|lra].
  - destruct (Hks k) as [Hne [q Hq]]; [by left|].
    destruct (Z.eqb_spec k.1 k.2) as [|_]; [done|].
    rewrite Hq. simpl.
    destruct (IH (Some (py_min q mn0), py_max q mx0))
      as (mn & mx & Hscan & Hall & Hmn & Hmx & Hge & Hle).
    { intros k' Hk'. apply Hks. by right. }
    simpl in *.
    destruct (py_min_le q mn0) as (Hm1 & Hm2 & Hm3).
    destruct (py_max_ge q mx0) as (Hx1 & Hx2 & Hx3).
    destruct (Hle _ eq_refl) as (m & -> & Hm).
    exists (Some m), mx. split; [done|]. split; [|split; [|split; [|split]]].
    + intros k' q' Hk' Hq'. apply elem_of_cons in Hk' as [->|Hk'].
      * rewrite Hq in Hq'. injection Hq' as <-.
        exists m. split; [done|]. lra.
      * destruct (Hall k' q' Hk' Hq') as (m' & [= <-] & ?). by exists m.
    + destruct Hmn as [Hmn|(k' & m' & Hk' & Hq' & Hmn)].
      * injection Hmn as ->. destruct Hm3 as [Hm3|Hm3].
        -- right. exists k, (py_min q mn0). rewrite Hm3 at 2 3.
           split; [by left|]. by rewrite Hm3.
        -- left. done.
      * right. exists k', m'. split; [by right|done].
    + destruct Hmx as [->|(k' & Hk' & Hq')].
      * destruct Hx3 as [->| ->]; [|by left].
        right. exists k. split; [by left|done].
      * right. exists k'. split; [by right|done].
    + lra.
    + intros a ->. exists m. split; [done|].
      specialize (Hm2 a eq_refl). lra.
Qed.

(** *** The second pair of loops *)

Lemma score_bounds (mn mx q : Q) :
  (mn < mx)%Q → (mn <= q <= mx)%Q → (0 <= score mn (mx - mn) q <= 1)%Q.
Proof.
  intros Hlt [Hlo Hhi]. unfold score.
  assert (Hd : (0 < mx - mn)%Q) by lra.
  assert (H0 : (0 <= (q - mn) / (mx - mn))%Q).
  { apply Qle_shift_div_l; [done|]. lra. }
  assert (H1 : ((q - mn) / (mx - mn) <= 1)%Q).
  { apply Qle_shift_div_r; [done|]. lra. }
  lra.
Qed.

Lemma score_least (mn difference : Q) :
  ¬ (difference == 0)%Q → (score mn difference mn == 1)%Q.
Proof. intros Hd. unfold score. field. done. Qed.

Lemma score_greatest (mn mx : Q) :
  ¬ (mx - mn == 0)%Q → (score mn (mx - mn) mx == 0)%Q.
Proof. intros Hd. unfold score. field. done. Qed.

Lemma rescale_distances_spec (mn mx : Q) (ks : list (Z * Z)) :
  (mn < mx)%Q →
  ∀ t,
    NoDup ks →
    (∀ k, k ∈ ks → ∃ q, distance_at t k = Some q ∧ (mn <= q <= mx)%Q) →
    ∃ t',
      rescale_distances mn (mx - mn) ks t = Returned t' ∧
      (∀ k q, k ∈ ks → distance_at t k = Some q →
              distance_at t' k = Some (score mn (mx - mn) q)) ∧
      (∀ k, k ∉ ks → distance_at t' k = distance_at t k).
Proof.
  intros Hlt. induction ks as [|k ks IH]; intros t Hnd Hks; simpl.
  - exists t. split; [done|]. split; [by intros k q Hk; inv Hk|done].
  - apply NoDup_cons in Hnd as [Hk Hnd].
    destruct (Hks k) as (q & Hq & Hbounds); [by left|]. rewrite Hq.
    destruct (Qeq_bool (mx - mn) 0) eqn:Hz.
    { apply Qeq_bool_iff in Hz. lra. }
    pose proof (score_bounds mn mx q Hlt Hbounds) as [Hs0 Hs1].
    fold (score mn (mx - mn) q).
    unfold in_unit_interval.
    rewrite (proj2 (Qle_bool_iff _ _) Hs0), (proj2 (Qle_bool_iff _ _) Hs1).
    simpl.
    destruct (IH (store_distance k (score mn (mx - mn) q) t) Hnd)
      as (t' & Hres & Hin & Hout).
    { intros k' Hk'. rewrite distance_at_store_ne by (by intros ->).
      apply Hks. by right. }
    exists t'. split; [done|]. split.
    + intros k' q' Hk' Hq'. apply elem_of_cons in Hk' as [->|Hk'].
      * rewrite Hq in Hq'. injection Hq' as <-.
        by rewrite (Hout k Hk), distance_at_store_eq.
      * apply Hin; [done|]. by rewrite distance_at_store_ne by (by intros ->).
    + intros k' Hk'. apply not_elem_of_cons in Hk' as [Hne Hk'].
      by rewrite (Hout k' Hk'), distance_at_store_ne.
Qed.

(** C1, counterexample: the table holds the one distance 5, so its greatest
    distance is not zero; the call raises [ZeroDivisionError] and the stored
    value is still 5, which is no closeness score. *)
Lemma equal_distances_counterexample :
  let t : table := {[ 1 := {[ 2 := 5%Q ]} ]} in
  greatest_distance t (1, 2) 5 ∧ ¬ (5 == 0)%Q ∧
  normalize_district_distances t = Raised ZeroDivisionError t ∧
  ¬ all_scores (store_of (normalize_district_distances t)).
Proof.
  intros t.
  assert (Hone : ∀ k q, distance_at t k = Some q → q = 5%Q).
  { intros [o d] q. unfold distance_at, t. simpl.
    destruct (decide (o = 1)) as [->|Ho].
    - rewrite lookup_singleton_eq. simpl.
      destruct (decide (d = 2)) as [->|Hd].
      + rewrite lookup_singleton_eq. by intros [= <-].
      + by rewrite lookup_singleton_ne.
    - by rewrite lookup_singleton_ne. }
  split; [|split; [|split]].
  - split; [reflexivity|]. intros k q Hq. rewrite (Hone k q Hq). lra.
  - intros H. lra.
  - reflexivity.
  - intros Hall. destruct (Hall (1, 2) 5%Q) as [_ Hle]; [reflexivity|]. lra.
Qed.

(** Checking a property of every entry of a concrete table, pair by pair. *)
Lemma for_all_pairs (t : table) (P : Z * Z → Q → Prop) :
  Forall (λ k, ∀ q, distance_at t k = Some q → P k q) (pairs_of t) →
  ∀ k q, distance_at t k = Some q → P k q.
Proof.
  intros Hall k q Hq. rewrite Forall_forall in Hall.
  apply (Hall k); [|done]. apply elem_of_pairs_of. by eexists.
Qed.

(** A table whose distances are all the same positive value passes the
    check of the maximum and then divides by a zero difference. *)
Lemma constant_table_raises (t : table) (k : Z * Z) (c : Q) :
  no_self_pairs t →
  distance_at t k = Some c →
  (∀ k' q, distance_at t k' = Some q → (q == c)%Q) →
  (0 < c)%Q →
  normalize_district_distances t = Raised ZeroDivisionError t.
Proof.
  intros Hself Hk Hconst Hpos. unfold normalize_district_distances.
  destruct (scan_distances_spec t (pairs_of t) (None, 0%Q))
    as (mn' & mx' & Hscan & Hall & Hmn & Hmx & Hge & _).
  { intros k' Hk'. apply elem_of_pairs_of in Hk'. split; [by apply Hself|done]. }
  rewrite Hscan. simpl in *.
  assert (Hin : k ∈ pairs_of t) by (apply elem_of_pairs_of; by eexists).
  destruct (Hall k c Hin Hk) as (m & -> & Hm1 & Hm2).
  assert (Em : (m == c)%Q).
  { destruct Hmn as [|(k' & m' & _ & Hk' & [= <-])]; [done|].
    by apply (Hconst k'). }
  assert (Ex : (mx' == c)%Q).
  { destruct Hmx as [->|(k' & _ & Hk')]; [lra|]. by apply (Hconst k'). }
  destruct (Qeq_bool mx' 0) eqn:Hz.
  { apply Qeq_bool_iff in Hz. lra. }
  destruct (pairs_of t) as [|k0 ks] eqn:Hks; [by inv Hin|].
  simpl.
  assert (Hk0 : is_Some (distance_at t k0)).
  { apply elem_of_pairs_of. rewrite Hks. by left. }
  destruct Hk0 as [q0 ->].
  assert (Hd : Qeq_bool (mx' - m) 0 = true).
  { apply Qeq_bool_iff. lra. }
  by rewrite Hd.
Qed.

(** C2, the code at the failing input: two districts 5 km apart.  The
    greatest distance is 5, not 0, yet the call raises: the difference
    between the greatest and the least distance is 0, and the division by
    it fails with [ZeroDivisionError], the table left as it was. *)
Theorem equal_distances_divide_by_zero :
  let t : table := {[ 1 := {[ 2 := 5%Q ]}; 2 := {[ 1 := 5%Q ]} ]} in
  greatest_distance t (1, 2) 5 ∧ ¬ (5 == 0)%Q ∧
  normalize_district_distances t = Raised ZeroDivisionError t.
Proof.
  intros t. split; [|split].
  - split; [reflexivity|]. apply for_all_pairs.
    repeat constructor; intros q Hq; vm_compute in Hq; injection Hq as <-; lra.
  - intros H. lra.
  - reflexivity.
Qed.

(** An empty table and a table of zero distances raise the [ValueError] of
    the check of the maximum. *)
Example degenerate_tables_raise :
  normalize_district_distances ∅ = Raised ValueError ∅ ∧
  (let t : table := {[ 1 := {[ 2 := 0%Q ]}; 2 := {[ 1 := 0%Q ]} ]} in
   normalize_district_distances t = Raised ValueError t).
Proof. split; reflexivity. Qed.

(** ** [normalize_district_distances]: every outcome *)

Lemma scan_distances_self_pair (t : table) (ks : list (Z * Z)) :
  ∀ acc,
    (∀ k, k ∈ ks → is_Some (distance_at t k)) →
    (∃ k, k ∈ ks ∧ k.1 = k.2) →
    scan_distances t acc ks = Raise AssertionError.
Proof.
  induction ks as [|k0 ks IH]; intros acc Hall (k & Hk & Heq); [by inv Hk|].
  simpl. destruct (Z.eqb_spec k0.1 k0.2) as [|Hne]; [done|].
  destruct (Hall k0) as [q ->]; [by left|]. simpl.
  apply IH; [intros k' Hk'; apply Hall; by right|].
  exists k. split; [|done].
  apply elem_of_cons in Hk as [->|Hk]; [done|done].
Qed.

Lemma has_self_pair_raises (t : table) (k : Z * Z) :
  is_Some (distance_at t k) → k.1 = k.2 →
  normalize_district_distances t = Raised AssertionError t.
Proof.
  intros Hk Heq. unfold normalize_district_distances.
  rewrite (scan_distances_self_pair t (pairs_of t)); [done| |].
  - intros k' Hk'. by apply elem_of_pairs_of.
  - exists k. split; [by apply elem_of_pairs_of|done].
Qed.

(** The three outcomes on a table without self pairs. *)
Lemma normalize_cases (t : table) :
  no_self_pairs t →
  (no_positive_distance t ∧
   normalize_district_distances t = Raised ValueError t) ∨
  (∃ kmn kmx mn mx,
     least_distance t kmn mn ∧ greatest_distance t kmx mx ∧ (0 < mx)%Q ∧
     (((mn == mx)%Q ∧
       normalize_district_distances t = Raised ZeroDivisionError t) ∨
      ((mn < mx)%Q ∧
       ∃ t', normalize_district_distances t = Returned t' ∧
             (∀ k q, distance_at t k = Some q →
                     distance_at t' k = Some (score mn (mx - mn) q)) ∧
             (∀ k, distance_at t k = None → distance_at t' k = None)))).
Proof.
  intros Hself. unfold normalize_district_distances.
  destruct (scan_distances_spec t (pairs_of t) (None, 0%Q))
    as (mn' & mx & Hscan & Hall & Hmn & Hmx & Hge & _).
  { intros k Hk. apply elem_of_pairs_of in Hk. split; [by apply Hself|done]. }
  rewrite Hscan. simpl in *.
  assert (Hall' : ∀ k q, distance_at t k = Some q →
                         ∃ m, mn' = Some m ∧ (m <= q <= mx)%Q).
  { intros k q Hq. apply (Hall k q); [|done]. apply elem_of_pairs_of. by eexists. }
  destruct (Qeq_bool mx 0) eqn:Hz.
  { left. apply Qeq_bool_iff in Hz. split; [|done].
    intros k q Hq. destruct (Hall' k q Hq) as (m & _ & ?). lra. }
  right. apply Qeq_bool_neq in Hz.
  destruct Hmx as [->|(kmx & Hkmx_in & Hkmx)]; [by destruct Hz|].
  destruct (Hall' kmx mx Hkmx) as (mn & -> & Hle & _).
  destruct Hmn as [|(kmn & m & Hkmn_in & Hkmn & [= <-])]; [done|].
  exists kmn, kmx, mn, mx.
  assert (Hleast : least_distance t kmn mn).
  { split; [done|]. intros k q Hq.
    destruct (Hall' k q Hq) as (m & [= <-] & ?). lra. }
  assert (Hgreatest : greatest_distance t kmx mx).
  { split; [done|]. intros k q Hq.
    destruct (Hall' k q Hq) as (m & _ & ?). lra. }
  split; [done|]. split; [done|]. split; [lra|].
  destruct (Qeq_bool (mx - mn) 0) eqn:Hd.
  - left. apply Qeq_bool_iff in Hd as Hd'. split; [lra|].
    destruct (pairs_of t) as [|k0 ks] eqn:Hks; [by inv Hkmx_in|].
    simpl.
    assert (Hk0 : is_Some (distance_at t k0)).
    { apply elem_of_pairs_of. rewrite Hks. by left. }
    destruct Hk0 as [q0 ->]. by rewrite Hd.
  - right. apply Qeq_bool_neq in Hd.
    assert (Hlt : (mn < mx)%Q) by lra. split; [done|].
    destruct (rescale_distances_spec mn mx (pairs_of t) Hlt t (NoDup_pairs_of t))
      as (t' & Hres & Hin & Hout).
    { intros k Hk. apply elem_of_pairs_of in Hk as [q Hq]. exists q.
      split; [done|]. destruct (Hall' k q Hq) as (m & [= <-] & ?). done. }
    exists t'. split; [done|]. split.
    + intros k q Hq. apply Hin; [|done]. apply elem_of_pairs_of. by eexists.
    + intros k Hnone. rewrite Hout; [done|].
      intros Hk. apply elem_of_pairs_of in Hk as [q Hq]. congruence.
Qed.

Lemma self_pair_dec (t : table) :
  no_self_pairs t ∨ ∃ k, is_Some (distance_at t k) ∧ k.1 = k.2.
Proof.
  destruct (decide (Exists (λ k : Z * Z, k.1 = k.2) (pairs_of t))) as [H|H].
  - right. apply Exists_exists in H as (k & Hk & Heq).
    exists k. split; [by apply elem_of_pairs_of|done].
  - left. intros k Hk Heq. apply H, Exists_exists. exists k.
    split; [by apply elem_of_pairs_of|done].
Qed.

(** What a returning call has done. *)
Lemma normalize_returned (t t' : table) :
  normalize_district_distances t = Returned t' →
  no_self_pairs t ∧
  ∃ kmn kmx mn mx,
    least_distance t kmn mn ∧ greatest_distance t kmx mx ∧
    (0 < mx)%Q ∧ (mn < mx)%Q ∧
    (∀ k q, distance_at t k = Some q →
            distance_at t' k = Some (score mn (mx - mn) q)) ∧
    (∀ k, distance_at t k = None → distance_at t' k = None).
Proof.
  intros Hret.
  destruct (self_pair_dec t) as [Hself|(k & Hk & Heq)].
  - split; [done|].
    destruct (normalize_cases t Hself)
      as [[_ H]|(kmn & kmx & mn & mx & Hmn & Hmx & Hpos & [[_ H]|[Hlt H]])];
      [congruence..|].
    destruct H as (t'' & H & Hin & Hout).
    rewrite Hret in H. injection H as <-.
    by exists kmn, kmx, mn, mx.
  - rewrite (has_self_pair_raises t k Hk Heq) in Hret. done.
Qed.

(** Checking the range of a concrete table by computation. *)
Lemma within_range_check (t : table) :
  forallb (λ k, match distance_at t k with
                | Some q => Qle_bool (- range_bound) q && Qle_bool q range_bound
                | None => true
                end) (pairs_of t) = true →
  within_range t.
Proof.
  intros H. unfold within_range. apply for_all_pairs.
  apply Forall_forall. intros k Hk q Hq.
  rewrite forallb_forall in H. specialize (H k).
  rewrite Hq in H. apply list_elem_of_In in Hk. specialize (H Hk).
  apply andb_true_iff in H as [H1 H2]. split; by apply Qle_bool_iff.
Qed.

(** C1, amended: for a table without self pairs whose distances lie within
    the range of the arithmetic, whose greatest distance is positive and
    strictly above its least distance, the call returns; afterwards the
    table holds the same pairs, every stored value lies between 0 and 1,
    the pair of the least distance holds 1 and the pair of the greatest
    distance holds 0. *)
Theorem normalize_scores (t : table) (kmn kmx : Z * Z) (mn mx : Q) :
  no_self_pairs t →
  within_range t →
  least_distance t kmn mn →
  greatest_distance t kmx mx →
  (0 < mx)%Q → (mn < mx)%Q →
  ∃ t',
    normalize_district_distances t = Returned t' ∧
    all_scores t' ∧
    (∀ k, is_Some (distance_at t' k) ↔ is_Some (distance_at t k)) ∧
    (∃ v, distance_at t' kmn = Some v ∧ (v == 1)%Q) ∧
    (∃ v, distance_at t' kmx = Some v ∧ (v == 0)%Q).
Proof.
  intros Hself _ [Hkmn Hleast] [Hkmx Hgreatest] Hpos Hlt.
  destruct (normalize_cases t Hself)
    as [[Hno _]|(kmn' & kmx' & mn' & mx' & [Hkmn' Hmn'] & [Hkmx' Hmx'] & _ & H)].
  { specialize (Hno kmx mx Hkmx). lra. }
  assert (Emn : (mn == mn')%Q).
  { specialize (Hleast _ _ Hkmn'). specialize (Hmn' _ _ Hkmn). lra. }
  assert (Emx : (mx == mx')%Q).
  { specialize (Hgreatest _ _ Hkmx'). specialize (Hmx' _ _ Hkmx). lra. }
  destruct H as [[Heq _]|[Hlt' (t' & Hret & Hin & Hout)]]; [lra|].
  assert (Hkeys : ∀ k, is_Some (distance_at t' k) ↔ is_Some (distance_at t k)).
  { intros k. destruct (distance_at t k) as [q|] eqn:Hq.
    - rewrite (Hin k q Hq). split; by eexists.
    - by rewrite (Hout k Hq). }
  exists t'. split; [done|]. split; [|split; [done|split]].
  - intros k v Hv.
    destruct (proj1 (Hkeys k)) as [q Hq]; [by eexists|].
    rewrite (Hin k q Hq) in Hv. injection Hv as <-.
    apply score_bounds; [done|]. split; [by apply (Hmn' k)|by apply (Hmx' k)].
  - exists (score mn' (mx' - mn') mn). split; [by apply Hin|].
    unfold score. rewrite Emn. field. lra.
  - exists (score mn' (mx' - mn') mx). split; [by apply Hin|].
    unfold score. rewrite Emx. field. lra.
Qed.

Lemma normalize_scores_witness :
  let t : table := {[ 1 := {[ 2 := 5%Q; 3 := 1%Q ]} ]} in
  ∃ t' v1 v0,
    normalize_district_distances t = Returned t' ∧ all_scores t' ∧
    distance_at t' (1, 3) = Some v1 ∧ (v1 == 1)%Q ∧
    distance_at t' (1, 2) = Some v0 ∧ (v0 == 0)%Q.
Proof.
  intros t.
  assert (Hself : no_self_pairs t).
  { intros k [q Hq]. revert k q Hq. apply for_all_pairs.
    repeat constructor; intros q _; simpl; lia. }
  assert (Hrange : within_range t).
  { apply within_range_check. vm_compute. reflexivity. }
  assert (Hmn : least_distance t (1, 3) 1).
  { split; [reflexivity|]. apply for_all_pairs.
    repeat constructor; intros q Hq; vm_compute in Hq; injection Hq as <-; lra. }
  assert (Hmx : greatest_distance t (1, 2) 5).
  { split; [reflexivity|]. apply for_all_pairs.
    repeat constructor; intros q Hq; vm_compute in Hq; injection Hq as <-; lra. }
  destruct (normalize_scores t (1, 3) (1, 2) 1 5 Hself Hrange Hmn Hmx)
    as (t' & Hret & Hall & _ & (v1 & H1 & E1) & (v0 & H0 & E0)); [lra..|].
  by exists t', v1, v0.
Defined.

Lemma score_le (mn mx q1 q2 : Q) :
  (mn < mx)%Q →
  (q1 <= q2)%Q ↔ (score mn (mx - mn) q2 <= score mn (mx - mn) q1)%Q.
Proof.
  intros Hlt. unfold score.
  assert (Hd : (0 < mx - mn)%Q) by lra.
  assert (Hmul : ∀ a b : Q, (a <= b)%Q ↔ (a / (mx - mn) <= b / (mx - mn))%Q).
  { intros a b. unfold Qdiv. symmetry. apply Qmult_le_r.
    by apply Qinv_lt_0_compat. }
  specialize (Hmul (q1 - mn)%Q (q2 - mn)%Q). split; intros H.
  - assert ((q1 - mn <= q2 - mn)%Q) as H' by lra. apply Hmul in H'. lra.
  - assert (((q1 - mn) / (mx - mn) <= (q2 - mn) / (mx - mn))%Q) as H' by lra.
    apply Hmul in H'. lra.
Qed.

(** X1: on a table without self pairs whose distances are numbers within
    range, the call raises [ValueError] exactly when no stored distance is
    positive: an empty table, a table of zeros, and also a table of
    negative distances. *)
Theorem value_error_iff_no_positive (t : table) :
  no_self_pairs t →
  within_range t →
  (∃ s, normalize_district_distances t = Raised ValueError s) ↔
  no_positive_distance t.
Proof.
  intros Hself _.
  destruct (normalize_cases t Hself)
    as [[Hno H]|(kmn & kmx & mn & mx & Hmn & [Hkmx Hmx] & Hpos & H)].
  - split; [done|]. intros _. by exists t.
  - split.
    + intros [s Hs].
      destruct H as [[_ H]|[_ (t' & H & _)]]; rewrite H in Hs; done.
    + intros Hno. specialize (Hno kmx mx Hkmx). lra.
Qed.

Lemma value_error_iff_no_positive_witness :
  let t : table := {[ 1 := {[ 2 := (-3)%Q; 3 := 0%Q ]} ]} in
  ∃ s, normalize_district_distances t = Raised ValueError s.
Proof.
  intros t.
  assert (Hself : no_self_pairs t).
  { intros k [q Hq]. revert k q Hq. apply for_all_pairs.
    repeat constructor; intros q _; simpl; lia. }
  assert (Hrange : within_range t).
  { apply within_range_check. vm_compute. reflexivity. }
  apply (proj2 (value_error_iff_no_positive t Hself Hrange)).
  unfold no_positive_distance. apply for_all_pairs.
  repeat constructor; intros q Hq; vm_compute in Hq; injection Hq as <-; lra.
Defined.

(** X2: a table that holds a distance from a district to itself makes the
    call raise [AssertionError], whatever else it holds; the table is left
    as it was. *)
Theorem self_pair_raises_assertion (t : table) (k : Z * Z) :
  is_Some (distance_at t k) → k.1 = k.2 →
  normalize_district_distances t = Raised AssertionError t.
Proof. apply has_self_pair_raises. Qed.

Lemma self_pair_raises_assertion_witness :
  let t : table := {[ 1 := {[ 1 := 0%Q; 2 := 5%Q ]}; 2 := {[ 1 := 7%Q ]} ]} in
  normalize_district_distances t = Raised AssertionError t.
Proof.
  intros t. apply (self_pair_raises_assertion t (1, 1)); [by eexists|done].
Defined.

(** X3: on a table whose distances are numbers within range, a call that
    raises leaves the table exactly as it was, and raises for one of three
    reasons only: [AssertionError] for a self pair, [ValueError] when no
    distance is positive, [ZeroDivisionError] when all distances are one
    and the same positive value.  In particular the closing assertion
    [0.0 <= distance <= 1.0] does not fail within that range. *)
Theorem raise_leaves_table (t s : table) (e : exn) :
  within_range t →
  normalize_district_distances t = Raised e s →
  s = t ∧
  ((e = AssertionError ∧ ∃ k, is_Some (distance_at t k) ∧ k.1 = k.2) ∨
   (e = ValueError ∧ no_positive_distance t) ∨
   (e = ZeroDivisionError ∧
    ∃ k c, distance_at t k = Some c ∧ (0 < c)%Q ∧
           ∀ k' q, distance_at t k' = Some q → (q == c)%Q)).
Proof.
  intros _ Hr.
  destruct (self_pair_dec t) as [Hself|(k & Hk & Heq)].
  - destruct (normalize_cases t Hself)
      as [[Hno H]|(kmn & kmx & mn & mx & [Hkmn Hmn] & [Hkmx Hmx] & Hpos & H)].
    + rewrite H in Hr. injection Hr as <- <-. split; [done|]. right; left. done.
    + destruct H as [[Heq H]|[_ (t' & H & _)]]; rewrite H in Hr; [|done].
      injection Hr as <- <-. split; [done|]. right; right. split; [done|].
      exists kmx, mx. split; [done|]. split; [done|].
      intros k' q Hq. specialize (Hmn k' q Hq). specialize (Hmx k' q Hq). lra.
  - rewrite (has_self_pair_raises t k Hk Heq) in Hr. injection Hr as <- <-.
    split; [done|]. left. split; [done|]. by exists k.
Qed.

Lemma raise_leaves_table_witness :
  let t : table := {[ 1 := {[ 2 := 5%Q ]}; 2 := {[ 1 := 5%Q ]} ]} in
  ∃ e s, normalize_district_distances t = Raised e s ∧ s = t.
Proof.
  intros t.
  assert (Hrange : within_range t).
  { apply within_range_check. vm_compute. reflexivity. }
  destruct (normalize_district_distances t) as [t'|e s] eqn:H;
    [by vm_compute in H|].
  exists e, s. split; [done|].
  exact (proj1 (raise_leaves_table t s e Hrange H)).
Defined.

(** X4: whenever the call returns, every stored value lies between 0 and
    1, the table holds the same pairs as before, some pair holds 1 and
    some pair holds 0. *)
Theorem returned_table_is_normalized (t t' : table) :
  normalize_district_distances t = Returned t' →
  all_scores t' ∧
  (∀ k, is_Some (distance_at t' k) ↔ is_Some (distance_at t k)) ∧
  (∃ k v, distance_at t' k = Some v ∧ (v == 1)%Q) ∧
  (∃ k v, distance_at t' k = Some v ∧ (v == 0)%Q).
Proof.
  intros Hret.
  destruct (normalize_returned t t' Hret)
    as (_ & kmn & kmx & mn & mx & [Hkmn Hmn] & [Hkmx Hmx] & Hpos & Hlt & Hin & Hout).
  assert (Hkeys : ∀ k, is_Some (distance_at t' k) ↔ is_Some (distance_at t k)).
  { intros k. destruct (distance_at t k) as [q|] eqn:Hq.
    - rewrite (Hin k q Hq). split; by eexists.
    - rewrite (Hout k Hq). done. }
  split; [|split; [done|split]].
  - intros k v Hv.
    destruct (proj1 (Hkeys k)) as [q Hq]; [by eexists|].
    rewrite (Hin k q Hq) in Hv. injection Hv as <-.
    apply score_bounds; [done|]. split; [by apply (Hmn k)|by apply (Hmx k)].
  - exists kmn, (score mn (mx - mn) mn). split; [by apply Hin|].
    apply score_least. lra.
  - exists kmx, (score mn (mx - mn) mx). split; [by apply Hin|].
    apply score_greatest. lra.
Qed.

Lemma returned_table_is_normalized_witness :
  let t : table := {[ 1 := {[ 2 := 5%Q; 3 := 1%Q ]}; 2 := {[ 1 := 4%Q ]} ]} in
  ∃ t', normalize_district_distances t = Returned t' ∧ all_scores t'.
Proof.
  intros t.
  destruct (normalize_district_distances t) as [t'|e s] eqn:H;
    [|by vm_compute in H].
  exists t'. split; [done|]. exact (proj1 (returned_table_is_normalized t t' H)).
Defined.

(** X5: normalizing never inverts the ranking: of two pairs of a table on
    which the call returns, the one with the smaller or equal raw distance
    holds the greater or equal score. *)
Theorem normalize_reverses_order (t t' : table) (k1 k2 : Z * Z)
    (q1 q2 v1 v2 : Q) :
  normalize_district_distances t = Returned t' →
  distance_at t k1 = Some q1 → distance_at t k2 = Some q2 →
  distance_at t' k1 = Some v1 → distance_at t' k2 = Some v2 →
  (q1 <= q2)%Q → (v2 <= v1)%Q.
Proof.
  intros Hret H1 H2 Hv1 Hv2.
  destruct (normalize_returned t t' Hret)
    as (_ & kmn & kmx & mn & mx & _ & _ & _ & Hlt & Hin & _).
  rewrite (Hin k1 q1 H1) in Hv1. rewrite (Hin k2 q2 H2) in Hv2.
  injection Hv1 as <-. injection Hv2 as <-.
  by apply score_le.
Qed.

Lemma normalize_reverses_order_witness :
  let t : table := {[ 1 := {[ 2 := 5%Q; 3 := 1%Q ]}; 2 := {[ 1 := 4%Q ]} ]} in
  ∃ t' v1 v2,
    normalize_district_distances t = Returned t' ∧
    distance_at t' (1, 3) = Some v1 ∧ distance_at t' (2, 1) = Some v2 ∧
    (v2 <= v1)%Q.
Proof.
  intros t.
  destruct (normalize_district_distances t) as [t'|e s] eqn:H;
    [|by vm_compute in H].
  destruct (distance_at t' (1, 3)) as [v1|] eqn:H1;
    [|by vm_compute in H; injection H as <-; vm_compute in H1].
  destruct (distance_at t' (2, 1)) as [v2|] eqn:H2;
    [|by vm_compute in H; injection H as <-; vm_compute in H2].
  exists t', v1, v2. repeat (split; [done|]).
  apply (normalize_reverses_order t t' (1, 3) (2, 1) 1 4 v1 v2 H);
    [reflexivity|reflexivity|done|done|lra].
Defined.

(** X6: normalizing is not idempotent.  A second call on a normalized
    table returns as well and turns every score [v] into [1 - v]: the
    nearest pair becomes the farthest. *)
Theorem normalize_twice_flips (t t' : table) :
  normalize_district_distances t = Returned t' →
  ∃ t'', normalize_district_distances t' = Returned t'' ∧
         ∀ k v, distance_at t' k = Some v →
                ∃ v', distance_at t'' k = Some v' ∧ (v' == 1 - v)%Q.
Proof.
  intros Hret.
  destruct (normalize_returned t t' Hret)
    as (Hself & kmn & kmx & mn & mx & [Hkmn Hmn] & [Hkmx Hmx] & Hpos & Hlt & Hin & Hout).
  assert (Hbounds : ∀ k v, distance_at t' k = Some v → (0 <= v <= 1)%Q).
  { intros k v Hv. destruct (distance_at t k) as [q|] eqn:Hq.
    - rewrite (Hin k q Hq) in Hv. injection Hv as <-.
      apply score_bounds; [done|]. split; [by apply (Hmn k)|by apply (Hmx k)].
    - by rewrite (Hout k Hq) in Hv. }
  assert (Hself' : no_self_pairs t').
  { intros k [v Hv]. apply Hself. destruct (distance_at t k) eqn:Hq; [done|].
    by rewrite (Hout k Hq) in Hv. }
  pose proof (Hin kmn mn Hkmn) as Hone.
  pose proof (Hin kmx mx Hkmx) as Hzero.
  assert (E1 : (score mn (mx - mn) mn == 1)%Q) by (apply score_least; lra).
  assert (E0 : (score mn (mx - mn) mx == 0)%Q) by (apply score_greatest; lra).
  destruct (normalize_cases t' Hself')
    as [[Hno _]|(kmn' & kmx' & mn' & mx' & [Hkmn' Hmn'] & [Hkmx' Hmx'] & Hpos' & H)].
  { specialize (Hno _ _ Hone). lra. }
  pose proof (Hmn' _ _ Hzero) as Ha. pose proof (Hmx' _ _ Hone) as Hb.
  pose proof (Hbounds _ _ Hkmn') as Hc. pose proof (Hbounds _ _ Hkmx') as Hd.
  destruct H as [[Heq _]|[Hlt' (t'' & Hret' & Hin' & _)]]; [lra|].
  exists t''. split; [done|]. intros k v Hv.
  exists (score mn' (mx' - mn') v). split; [by apply Hin'|].
  unfold score.
  assert (Emn : (mn' == 0)%Q) by lra. assert (Emx : (mx' == 1)%Q) by lra.
  rewrite Emn, Emx. field.
Qed.

Lemma normalize_twice_flips_witness :
  let t : table := {[ 1 := {[ 2 := 5%Q; 3 := 1%Q ]}; 2 := {[ 1 := 4%Q ]} ]} in
  ∃ t' t'',
    normalize_district_distances t = Returned t' ∧
    normalize_district_distances t' = Returned t''.
Proof.
  intros t.
  destruct (normalize_district_distances t) as [t'|e s] eqn:H;
    [|by vm_compute in H].
  destruct (normalize_twice_flips t t' H) as (t'' & H' & _).
  by exists t', t''.
Defined.

(** ** [get_raw_district_distances]: the table it builds *)

Lemma process_mapping_Ok (lookup : gmap Z District) (origin : District)
    (dd dd' : gmap Z Q) (mapping : string) :
  process_mapping lookup origin dd mapping = Ok dd' →
  dd' = dd ∨
  ∃ destination_id destination distance,
    lookup !! destination_id = Some destination ∧
    district_id destination ≠ district_id origin ∧
    dd' = <[district_id destination := distance]> dd.
Proof.
  unfold process_mapping, getitem. intros H.
  apply bind_Ok in H as (id_text & _ & H).
  apply bind_Ok in H as (destination_id & _ & H).
  apply bind_Ok in H as (distance_text & _ & H).
  apply bind_Ok in H as (distance & _ & H).
  destruct (lookup !! destination_id) as [destination|] eqn:Hd; [|done].
  simpl in H. unfold district_eqb in H.
  destruct (Z.eqb_spec (district_id destination) (district_id origin));
    simpl in H; injection H as <-; [by left|].
  right. by exists destination_id, destination, distance.
Qed.

Lemma process_mappings_keys (lookup : gmap Z District) (origin : District)
    (mappings : list string) :
  (∀ k d, lookup !! k = Some d → district_id d = k) →
  ∀ dd dd',
    process_mappings lookup origin dd mappings = Ok dd' →
    (∀ d, is_Some (dd !! d) → d ≠ district_id origin ∧ is_Some (lookup !! d)) →
    ∀ d, is_Some (dd' !! d) → d ≠ district_id origin ∧ is_Some (lookup !! d).
Proof.
  intros Hkeyed. induction mappings as [|m ms IH]; simpl; intros dd dd' H Hdd.
  - by injection H as <-.
  - apply bind_Ok in H as (dd1 & H1 & H2). apply (IH dd1 dd' H2).
    apply process_mapping_Ok in H1
      as [->|(did & dest & q & Hl & Hne & ->)]; [done|].
    intros d. destruct (decide (district_id dest = d)) as [<-|Hd].
    + intros _. split; [done|]. rewrite (Hkeyed _ _ Hl). by eexists.
    + rewrite lookup_insert_ne by done. apply Hdd.
Qed.

Lemma process_distance_row_Ok (lookup : gmap Z District) (t t' : table) (r : row) :
  process_distance_row lookup t r = Ok t' →
  ∃ id_text oid origin mappings_text dd,
    r !! 0%nat = Some id_text ∧ Str.py_int id_text = Some oid ∧
    lookup !! oid = Some origin ∧ r !! 1%nat = Some mappings_text ∧
    process_mappings lookup origin ∅ (Str.split "|" mappings_text) = Ok dd ∧
    t' = <[district_id origin := dd]> t.
Proof.
  unfold process_distance_row, getitem, index, to_int. intros H.
  destruct (r !! 0%nat) as [id_text|] eqn:E0; simpl in H; [|done].
  destruct (Str.py_int id_text) as [oid|] eqn:E1; simpl in H; [|done].
  destruct (lookup !! oid) as [origin|] eqn:E2; simpl in H; [|done].
  destruct (r !! 1%nat) as [mappings_text|] eqn:E3; simpl in H; [|done].
  apply bind_Ok in H as (dd & Hdd & [= <-]).
  by exists id_text, oid, origin, mappings_text, dd.
Qed.

Lemma process_distance_rows_sound (lookup : gmap Z District) (rows : list row) :
  (∀ k d, lookup !! k = Some d → district_id d = k) →
  ∀ t t',
    table_sound lookup t →
    process_distance_rows lookup t rows = Ok t' →
    table_sound lookup t'.
Proof.
  intros Hkeyed. induction rows as [|r rows IH]; simpl; intros t t' Ht H.
  - by injection H as <-.
  - apply bind_Ok in H as (t1 & H1 & H2). apply (IH t1 t'); [|done].
    apply process_distance_row_Ok in H1
      as (id_text & oid & origin & mt & dd & _ & _ & Hl & _ & Hdd & ->).
    pose proof (Hkeyed _ _ Hl) as Hid. rewrite Hid.
    intros o m. destruct (decide (oid = o)) as [<-|Hne].
    + rewrite lookup_insert_eq. intros [= <-]. split; [by eexists|].
      intros d Hd. rewrite <- Hid.
      apply (process_mappings_keys lookup origin _ Hkeyed ∅ dd Hdd); [|done].
      intros d' [q Hq]. by rewrite lookup_empty in Hq.
    + rewrite lookup_insert_ne by done. apply Ht.
Qed.

Lemma raw_distances_sound (districts : list District) (file : list row)
    (t : table) :
  get_raw_district_distances districts file = Ok t →
  table_sound (district_lookup_of districts) t.
Proof.
  intros H.
  apply (process_distance_rows_sound _ (tail file)
           (district_lookup_of_id districts) ∅ t); [|done].
  intros o m Hm. by rewrite lookup_empty in Hm.
Qed.

Lemma table_sound_no_self_pairs (lookup : gmap Z District) (t : table) :
  table_sound lookup t → no_self_pairs t.
Proof.
  intros Ht [o d] [q Hq]. unfold distance_at in Hq. simpl in *.
  destruct (t !! o) as [m|] eqn:Hm; simpl in Hq; [|done].
  destruct (Ht o m Hm) as [_ Hd]. by destruct (Hd d (mk_is_Some _ _ Hq)).
Qed.

(** X7: the table that [get_raw_district_distances] returns holds no
    distance from a district to itself, and every origin and every
    destination in it is the id of a district of the given set. *)
Theorem raw_table_well_formed (districts : list District) (file : list row)
    (t : table) :
  get_raw_district_distances districts file = Ok t →
  no_self_pairs t ∧
  ∀ o d q, distance_at t (o, d) = Some q →
           is_Some (district_lookup_of districts !! o) ∧
           is_Some (district_lookup_of districts !! d).
Proof.
  intros H. pose proof (raw_distances_sound districts file t H) as Ht.
  split; [by eapply table_sound_no_self_pairs|].
  intros o d q Hq. unfold distance_at in Hq. simpl in Hq.
  destruct (t !! o) as [m|] eqn:Hm; simpl in Hq; [|done].
  destruct (Ht o m Hm) as [Ho Hd]. split; [done|].
  by destruct (Hd d (mk_is_Some _ _ Hq)).
Qed.

Lemma raw_table_well_formed_witness :
  let file := [ ["origin"; "distances"];
                ["10"; "10:0|20:3.5"];
                ["20"; "10:3.5|20:0"] ] in
  ∃ t, get_raw_district_distances sample_districts file = Ok t ∧
       no_self_pairs t.
Proof.
  intros file.
  destruct (get_raw_district_distances sample_districts file) as [t|] eqn:H;
    [|by vm_compute in H].
  exists t. split; [done|].
  exact (proj1 (raw_table_well_formed sample_districts file t H)).
Defined.

(** X8: loading and then normalizing never trips the self-pair assertion:
    on a table that [get_raw_district_distances] returned and whose
    distances are within range, the normalizer returns, or raises
    [ValueError] (no positive distance), or raises [ZeroDivisionError]
    (all distances equal); the last two leave the table as loaded. *)
Theorem normalize_after_load (districts : list District) (file : list row)
    (t : table) :
  get_raw_district_distances districts file = Ok t →
  within_range t →
  (∃ t', normalize_district_distances t = Returned t') ∨
  normalize_district_distances t = Raised ValueError t ∨
  normalize_district_distances t = Raised ZeroDivisionError t.
Proof.
  intros H _.
  assert (Hself : no_self_pairs t).
  { eapply table_sound_no_self_pairs. by eapply raw_distances_sound. }
  destruct (normalize_cases t Hself)
    as [[_ Hv]|(kmn & kmx & mn & mx & _ & _ & _ & [[_ Hz]|[_ (t' & Hr & _)]])].
  - right; left. done.
  - right; right. done.
  - left. by exists t'.
Qed.

Lemma normalize_after_load_witness :
  let file := [ ["origin"; "distances"];
                ["10"; "10:0|20:3.5"];
                ["20"; "10:3.5|20:0"] ] in
  ∃ t, get_raw_district_distances sample_districts file = Ok t ∧
       normalize_district_distances t = Raised ZeroDivisionError t.
Proof.
  intros file.
  destruct (get_raw_district_distances sample_districts file) as [t|] eqn:H;
    [|by vm_compute in H].
  exists t. split; [done|].
  assert (Hrange : within_range t).
  { vm_compute in H. injection H as <-.
    apply within_range_check. vm_compute. reflexivity. }
  destruct (normalize_after_load sample_districts file t H Hrange)
    as [[t' Hr]|[Hv|Hz]]; [| |exact Hz].
  - exfalso. vm_compute in H. injection H as <-. by vm_compute in Hr.
  - exfalso. vm_compute in H. injection H as <-. by vm_compute in Hv.
Defined.

Lemma process_distance_rows_app (lookup : gmap Z District) (pre post : list row) :
  ∀ t, process_distance_rows lookup t (pre ++ post) =
       process_distance_rows lookup t pre ≫=
         λ t', process_distance_rows lookup t' post.
Proof.
  induction pre as [|r pre IH]; simpl; intros t; [done|].
  destruct (process_distance_row lookup t r) as [t1|e]; simpl; [apply IH|done].
Qed.

Lemma process_distance_rows_other (lookup : gmap Z District) (o : Z)
    (rows : list row) :
  (∀ k d, lookup !! k = Some d → district_id d = k) →
  Forall (λ r, origin_of r ≠ Some o) rows →
  ∀ t t', process_distance_rows lookup t rows = Ok t' → t' !! o = t !! o.
Proof.
  intros Hkeyed. induction 1 as [|r rows Hr _ IH]; simpl; intros t t' H.
  - by injection H as <-.
  - apply bind_Ok in H as (t1 & H1 & H2). rewrite (IH t1 t' H2).
    apply process_distance_row_Ok in H1
      as (id_text & oid & origin & mt & dd & E0 & E1 & Hl & _ & _ & ->).
    rewrite (Hkeyed _ _ Hl). apply lookup_insert_ne.
    intros ->. apply Hr. unfold origin_of. rewrite E0. simpl. done.
Qed.

(** X9: rows of one origin do not add up.  The distances kept for an
    origin are those of the last row of the file that names it, as if that
    row were the only one: what earlier rows of the same origin listed is
    dropped. *)
Theorem last_origin_row_wins (districts : list District) (header : row)
    (pre : list row) (r : row) (post : list row) (o : Z) (t : table) :
  origin_of r = Some o →
  Forall (λ r', origin_of r' ≠ Some o) post →
  get_raw_district_distances districts (header :: pre ++ r :: post) = Ok t →
  ∃ t1, get_raw_district_distances districts [header; r] = Ok t1 ∧
        t !! o = t1 !! o.
Proof.
  intros Ho Hpost. unfold get_raw_district_distances. simpl tail.
  rewrite process_distance_rows_app. intros H.
  apply bind_Ok in H as (t0 & _ & H). simpl in H.
  apply bind_Ok in H as (t2 & Hr & H).
  rewrite (process_distance_rows_other _ o post
             (district_lookup_of_id districts) Hpost t2 t H).
  apply process_distance_row_Ok in Hr
    as (id_text & oid & origin & mt & dd & E0 & E1 & Hl & E3 & Hdd & ->).
  assert (oid = o) as ->.
  { unfold origin_of in Ho. rewrite E0 in Ho. simpl in Ho. congruence. }
  exists (<[district_id origin := dd]> ∅). split.
  - simpl. unfold process_distance_row, getitem.
    read_column E0. read_int E1. rewrite Hl. simpl.
    read_column E3. by rewrite Hdd.
  - rewrite (district_lookup_of_id _ _ _ Hl). by rewrite !lookup_insert_eq.
Qed.

Lemma last_origin_row_wins_witness :
  let file := [ ["origin"; "distances"];
                ["10"; "20:3.5"];
                ["20"; "10:3.5"];
                ["10"; "20:4"] ] in
  ∃ t, get_raw_district_distances sample_districts file = Ok t ∧
       distance_at t (10, 20) = Some (inject_Z 4).
Proof.
  intros file.
  destruct (get_raw_district_distances sample_districts file) as [t|] eqn:H;
    [|by vm_compute in H].
  exists t. split; [done|].
  destruct (last_origin_row_wins sample_districts ["origin"; "distances"]
              [["10"; "20:3.5"]; ["20"; "10:3.5"]] ["10"; "20:4"] [] 10 t)
    as (t1 & H1 & Heq); [reflexivity|constructor|exact H|].
  unfold distance_at. simpl. rewrite Heq.
  vm_compute in H1. injection H1 as <-. reflexivity.
Defined.

(** ** [load_dog_data]: which breeds count as mixed *)

Lemma to_lower_not_M (c : ascii) : Str.to_lower c ≠ "M"%char.
Proof. by destruct c as [[] [] [] [] [] [] [] []]. Qed.

Lemma upper_M_iff_lower_m (c : ascii) :
  Str.to_upper c = "M"%char ↔ Str.to_lower c = "m"%char.
Proof. destruct c as [[] [] [] [] [] [] [] []]; by vm_compute. Qed.

Lemma lowered_has_no_marker (s : string) :
  Str.contains mixed_marker (Str.map_chars Str.to_lower s) = false.
Proof.
  unfold mixed_marker. induction s as [|c s IH]; [done|].
  cbn [Str.contains Str.map_chars String.prefix]. rewrite IH.
  destruct (ascii_dec "M" (Str.to_lower c)) as [E|]; [|done].
  by destruct (to_lower_not_M c).
Qed.

(** X10: a breed name counts as mixed exactly when it begins with
    [mischling], in any mix of upper and lower case.  [capitalize] lowers
    every character but the first, so the marker with its capital M can
    only match at the start: a name such as [Labrador Mischling] is not
    skipped. *)
Theorem mixed_marker_only_at_start (s : string) :
  Str.contains mixed_marker (Str.capitalize s) =
  String.prefix "mischling" (Str.map_chars Str.to_lower s).
Proof.
  destruct s as [|c s]; [done|].
  unfold Str.capitalize. cbn [Str.contains Str.map_chars].
  rewrite lowered_has_no_marker, orb_false_r.
  unfold mixed_marker. cbn [String.prefix].
  destruct (ascii_dec "M" (Str.to_upper c)) as [E|E],
           (ascii_dec "m" (Str.to_lower c)) as [E'|E']; try done.
  - destruct E'. symmetry. by apply upper_M_iff_lower_m.
  - destruct E. symmetry. by apply upper_M_iff_lower_m.
Qed.

Example mixed_breed_in_second_place_is_kept :
  let r := ["7"; "20-29"; "w"; ""; "10"; "Labrador Mischling"] in
  read_row (district_lookup_of sample_districts) r =
  Ok (Entry 7 24 "W" {| district_id := 10; district_name := "Altstadt" |}
        "Labrador mischling").
Proof. reflexivity. Qed.

(** ** [load_dog_data]: the graphs it returns *)

(** What one turn of the loop does to the state, when it does not raise. *)
Lemma process_row_cases (dm : gmap Z District) (st st' : loader_state) (r : row) :
  users_disjoint dm st →
  process_row dm st r = Ok st' →
  (read_row dm r = Ok Skip ∧ st' = st) ∨
  ∃ uid age gender district b,
    read_row dm r = Ok (Entry uid age gender district b) ∧
    dm !! uid = None ∧
    add_entry dm st uid age gender district b = Ok st' ∧
    dog_graph st' =
      G.add_edge (VBreed b) (VUser uid)
        (G.add_vertex (VBreed b) (G.add_vertex (VUser uid) (dog_graph st))).
Proof.
  intros Hdis. rewrite process_row_read.
  destruct (read_row dm r) as [[|uid age g d b]|e]; [| |done].
  - intros [= <-]. by left.
  - intros H. right. exists uid, age, g, d, b.
    destruct (add_entry_disjoint _ _ _ _ _ _ _ _ Hdis H) as [_ Hnone].
    split; [done|]. split; [done|]. split; [done|].
    rewrite add_entry_fresh in H by done. by injection H as <-.
Qed.

Lemma process_rows_dog_graph (dm : gmap Z District) (rows : list row) :
  ∀ st st',
    users_disjoint dm st →
    process_rows dm st rows = Ok st' →
    (∀ e, e ∈ g_edges (dog_graph st') ↔
          e ∈ g_edges (dog_graph st) ∨
          ∃ r uid b, r ∈ rows ∧ row_links dm uid b r ∧ dm !! uid = None ∧
                     (e = (VBreed b, VUser uid) ∨ e = (VUser uid, VBreed b))) ∧
    (∀ v, v ∈ g_vertices (dog_graph st') ↔
          v ∈ g_vertices (dog_graph st) ∨
          ∃ r uid b, r ∈ rows ∧ row_links dm uid b r ∧ dm !! uid = None ∧
                     (v = VBreed b ∨ v = VUser uid)).
Proof.
  induction rows as [|r rows IH]; simpl; intros st st' Hdis H.
  - injection H as <-.
    split; intros x; (split; [by left|]);
      intros [?|(r & ? & ? & Hr & _)]; [done|by inv Hr|done|by inv Hr].
  - apply bind_Ok in H as (st1 & H1 & H2).
    pose proof (process_row_disjoint dm st st1 r Hdis H1) as Hdis1.
    destruct (IH st1 st' Hdis1 H2) as [IHe IHv].
    destruct (process_row_cases dm st st1 r Hdis H1)
      as [[Hskip ->]|(uid & age & g & d & b & Hread & Hnone & _ & Hg)].
    + split; intros x; [rewrite IHe|rewrite IHv]; split.
      * intros [?|(r' & u & b & Hr' & ?)]; [by left|].
        right. exists r', u, b. split; [by right|done].
      * intros [?|(r' & u & b & Hr' & [a [g' [d' Hl]]] & ?)]; [by left|].
        apply elem_of_cons in Hr' as [->|Hr']; [congruence|].
        right. exists r', u, b. split; [done|]. split; [|done]. by exists a, g', d'.
      * intros [?|(r' & u & b & Hr' & ?)]; [by left|].
        right. exists r', u, b. split; [by right|done].
      * intros [?|(r' & u & b & Hr' & [a [g' [d' Hl]]] & ?)]; [by left|].
        apply elem_of_cons in Hr' as [->|Hr']; [congruence|].
        right. exists r', u, b. split; [done|]. split; [|done]. by exists a, g', d'.
    + assert (Hl : row_links dm uid b r) by (by exists age, g, d).
      split; intros x; [rewrite IHe|rewrite IHv]; rewrite Hg; simpl; split.
      * intros [Hx|(r' & u & b' & Hr' & ?)].
        -- rewrite elem_of_union in Hx. destruct Hx as [Hx|Hx]; [|by left].
           right. exists r, uid, b. split; [by left|]. split; [done|].
           split; [done|].
           apply elem_of_union in Hx as [Hx|Hx];
             apply elem_of_singleton in Hx; auto.
        -- right. exists r', u, b'. split; [by right|done].
      * intros [Hx|(r' & u & b' & Hr' & [a [g' [d' Hl']]] & Hn & Hx)].
        -- left. apply elem_of_union. by right.
        -- apply elem_of_cons in Hr' as [->|Hr'].
           ++ rewrite Hread in Hl'. injection Hl' as <- _ _ _ <-.
              left. apply elem_of_union. left.
              apply elem_of_union. rewrite !elem_of_singleton. tauto.
           ++ right. exists r', u, b'. split; [done|]. split; [|done].
              by exists a, g', d'.
      * intros [Hx|(r' & u & b' & Hr' & ?)].
        -- rewrite !elem_of_union, !elem_of_singleton in Hx.
           destruct Hx as [Hx|[Hx|Hx]]; [| |by left].
           ++ right. exists r, uid, b. split; [by left|]. auto.
           ++ right. exists r, uid, b. split; [by left|]. auto.
        -- right. exists r', u, b'. split; [by right|done].
      * intros [Hx|(r' & u & b' & Hr' & [a [g' [d' Hl']]] & Hn & Hx)].
        -- left. rewrite !elem_of_union. auto.
        -- apply elem_of_cons in Hr' as [->|Hr'].
           ++ rewrite Hread in Hl'. injection Hl' as <- _ _ _ <-.
              left. rewrite !elem_of_union, !elem_of_singleton. tauto.
           ++ right. exists r', u, b'. split; [done|]. split; [|done].
              by exists a, g', d'.
Qed.

Lemma load_dog_data_graph (file : list row) (districts : list District)
    (g : Graph) (wg : WeightedGraph) :
  load_dog_data file districts = Ok (g, wg) →
  let dm := district_lookup_of districts in
  (∀ e, e ∈ g_edges g ↔
        ∃ r uid b, r ∈ tail file ∧ row_links dm uid b r ∧ dm !! uid = None ∧
                   (e = (VBreed b, VUser uid) ∨ e = (VUser uid, VBreed b))) ∧
  (∀ v, v ∈ g_vertices g ↔
        ∃ r uid b, r ∈ tail file ∧ row_links dm uid b r ∧ dm !! uid = None ∧
                   (v = VBreed b ∨ v = VUser uid)).
Proof.
  intros H dm. unfold load_dog_data in H. fold dm in H.
  apply bind_Ok in H as (st & Hrows & [= <- <-]).
  destruct (process_rows_dog_graph dm (tail file) initial_state st
              (initial_state_disjoint dm) Hrows) as [He Hv].
  split; intros x; [rewrite He|rewrite Hv]; simpl; split; auto.
  - intros [Hx|?]; [|done]. by apply not_elem_of_empty in Hx.
  - intros [Hx|?]; [|done]. by apply not_elem_of_empty in Hx.
Qed.

(** X11: when the load returns, the owner/breed graph has an edge between
    a breed and a user exactly when some row of the file is processed for
    that user and that breed; neither the order of the rows nor their
    number matters. *)
Theorem dog_graph_edges (file : list row) (districts : list District)
    (g : Graph) (wg : WeightedGraph) (uid : Z) (b : string) :
  load_dog_data file districts = Ok (g, wg) →
  (VBreed b, VUser uid) ∈ g_edges g ↔
  ∃ r, r ∈ tail file ∧ row_links (district_lookup_of districts) uid b r.
Proof.
  intros H. destruct (load_dog_data_graph file districts g wg H) as [He _].
  rewrite He. split.
  - intros (r & u & b' & Hr & Hl & _ & [Hx|Hx]); [|done].
    injection Hx as <- <-. by exists r.
  - intros (r & Hr & Hl). exists r, uid, b. split; [done|]. split; [done|].
    split; [|by left].
    destruct (district_lookup_of districts !! uid) as [d|] eqn:Hd; [|done].
    exfalso. destruct Hl as (age & gd & dist & Hread).
    apply list_elem_of_split in Hr as (pre & post & Hfile).
    unfold load_dog_data in H. rewrite Hfile, process_rows_app in H.
    destruct (process_rows _ initial_state pre) as [st|e] eqn:Hpre; [|done].
    simpl in H. rewrite process_row_read, Hread in H.
    rewrite add_entry_collision in H; [done|by rewrite Hd|].
    eapply process_rows_disjoint; [apply initial_state_disjoint|done].
Qed.

Lemma dog_graph_edges_witness :
  let file :=
    [ sample_header;
      ["1"; "20-29"; "w"; ""; "10"; "labrador"];
      ["2"; "30-39"; "m"; ""; "20"; "pudel"] ] in
  ∃ g wg, load_dog_data file sample_districts = Ok (g, wg) ∧
          (VBreed "Pudel", VUser 2) ∈ g_edges g.
Proof.
  intros file.
  destruct (load_dog_data file sample_districts) as [[g wg]|] eqn:H;
    [|by vm_compute in H].
  exists g, wg. split; [done|].
  apply (proj2 (dog_graph_edges file sample_districts g wg 2 "Pudel" H)).
  exists ["2"; "30-39"; "m"; ""; "20"; "pudel"]. split.
  - simpl. by right; left.
  - by exists 34, "M", {| district_id := 20; district_name := "Seefeld" |}.
Defined.

(** X12: the owner/breed graph that the load returns is well formed: every
    edge is there in both directions, joins a breed and a user, and both
    its end points are vertices of the graph. *)
Theorem returned_dog_graph_sound (file : list row) (districts : list District)
    (g : Graph) (wg : WeightedGraph) :
  load_dog_data file districts = Ok (g, wg) → dog_graph_sound g.
Proof.
  intros H. destruct (load_dog_data_graph file districts g wg H) as [He Hv].
  intros x y Hxy. apply He in Hxy as (r & u & b & Hr & Hl & Hn & Hxy).
  split; [|split; [|split]].
  - apply He. exists r, u, b. repeat (split; [done|]).
    destruct Hxy as [[= -> ->]|[= -> ->]]; auto.
  - apply Hv. exists r, u, b. repeat (split; [done|]).
    destruct Hxy as [[= -> ->]|[= -> ->]]; auto.
  - apply Hv. exists r, u, b. repeat (split; [done|]).
    destruct Hxy as [[= -> ->]|[= -> ->]]; auto.
  - destruct Hxy as [[= -> ->]|[= -> ->]]; [left|right]; by exists b, u.
Qed.

Lemma returned_dog_graph_sound_witness :
  let file :=
    [ sample_header;
      ["1"; "20-29"; "w"; ""; "10"; "labrador"];
      ["2"; "30-39"; "m"; ""; "20"; "pudel"] ] in
  ∃ g wg, load_dog_data file sample_districts = Ok (g, wg) ∧ dog_graph_sound g.
Proof.
  intros file.
  destruct (load_dog_data file sample_districts) as [[g wg]|] eqn:H;
    [|by vm_compute in H].
  exists g, wg. split; [done|].
  exact (returned_dog_graph_sound file sample_districts g wg H).
Defined.

(** X13: the load returns only when no processed row has a user id that is
    also a district id: in the graph it returns, every user vertex carries
    an id that is no key of the district lookup, and has at least one
    breed as a neighbour. *)
Theorem returned_users_are_no_districts (file : list row)
    (districts : list District) (g : Graph) (wg : WeightedGraph) (uid : Z) :
  load_dog_data file districts = Ok (g, wg) →
  VUser uid ∈ g_vertices g →
  district_lookup_of districts !! uid = None ∧
  ∃ b, (VUser uid, VBreed b) ∈ g_edges g.
Proof.
  intros H Hu. destruct (load_dog_data_graph file districts g wg H) as [He Hv].
  apply Hv in Hu as (r & u & b & Hr & Hl & Hn & [Hx|Hx]); [done|].
  injection Hx as ->. split; [done|].
  exists b. apply He. exists r, u, b. auto.
Qed.

Lemma returned_users_are_no_districts_witness :
  let file :=
    [ sample_header;
      ["1"; "20-29"; "w"; ""; "10"; "labrador"];
      ["2"; "30-39"; "m"; ""; "20"; "pudel"] ] in
  ∃ g wg, load_dog_data file sample_districts = Ok (g, wg) ∧
          district_lookup_of sample_districts !! 2 = None.
Proof.
  intros file.
  destruct (load_dog_data file sample_districts) as [[g wg]|] eqn:H;
    [|by vm_compute in H].
  exists g, wg. split; [done|].
  apply (returned_users_are_no_districts file sample_districts g wg 2 H).
  vm_compute in H. injection H as <- _. vm_compute. reflexivity.
Defined.

Lemma ensure_vertex_facts (v : vertex) (g : WeightedGraph) :
  let g' := if W.contains v g then g else W.add_vertex v g in
  w_weights g' = w_weights g ∧ v ∈ w_vertices g' ∧
  ∀ x, x ∈ w_vertices g → x ∈ w_vertices g'.
Proof.
  unfold W.contains. case_bool_decide as Hv; simpl.
  - done.
  - split; [done|]. split; [|intros x Hx]; apply elem_of_union; auto.
    left. by apply elem_of_singleton.
Qed.

Lemma count_edge_sound (d : Z) (b : string) (g : WeightedGraph) :
  district_graph_sound g →
  let dv := VDistrict d in
  let wg1 := if W.contains dv g then g else W.add_vertex dv g in
  let wg2 := if W.contains (VBreed b) wg1 then wg1
             else W.add_vertex (VBreed b) wg1 in
  district_graph_sound
    (W.add_edge dv (VBreed b) (W.get_weight dv (VBreed b) wg2 + 1) wg2).
Proof.
  intros Hg dv wg1 wg2.
  destruct (ensure_vertex_facts dv g) as (Hw1 & Hd1 & Hsub1).
  destruct (ensure_vertex_facts (VBreed b) wg1) as (Hw2 & Hb2 & Hsub2).
  fold wg1 in Hw1, Hd1, Hsub1, Hw2, Hb2, Hsub2. fold wg2 in Hw2, Hb2, Hsub2.
  assert (Hw : w_weights wg2 = w_weights g) by congruence.
  assert (Hcw : 0 <= W.get_weight dv (VBreed b) wg2).
  { unfold W.get_weight. rewrite Hw.
    destruct (w_weights g !! (dv, VBreed b)) as [w0|] eqn:E; simpl; [|lia].
    destruct (Hg _ _ _ E) as (_ & ? & _). lia. }
  intros x y w. unfold W.add_edge. simpl. rewrite Hw.
  destruct (decide ((x, y) = (VBreed b, dv))) as [[= -> ->]|Hne1].
  { rewrite lookup_insert_eq. intros [= <-].
    rewrite lookup_insert_ne, lookup_insert_eq by done.
    split; [done|]. split; [lia|]. split; [done|]. split; [by apply Hsub2|].
    right. by exists d, b. }
  rewrite lookup_insert_ne by done.
  destruct (decide ((x, y) = (dv, VBreed b))) as [[= -> ->]|Hne2].
  { rewrite lookup_insert_eq. intros [= <-]. rewrite lookup_insert_eq.
    split; [done|]. split; [lia|]. split; [by apply Hsub2|]. split; [done|].
    left. by exists d, b. }
  rewrite lookup_insert_ne by done. intros E.
  destruct (Hg _ _ _ E) as (Hsym & Hge & Hx & Hy & Hshape).
  rewrite !lookup_insert_ne by congruence.
  split; [done|]. split; [done|]. split; [by apply Hsub2, Hsub1|].
  split; [by apply Hsub2, Hsub1|done].
Qed.

Lemma process_rows_district_graph (dm : gmap Z District) (rows : list row) :
  ∀ st st',
    users_disjoint dm st →
    district_graph_sound (district_graph st) →
    process_rows dm st rows = Ok st' →
    district_graph_sound (district_graph st').
Proof.
  induction rows as [|r rows IH]; simpl; intros st st' Hdis Hg H.
  - by injection H as <-.
  - apply bind_Ok in H as (st1 & H1 & H2).
    apply (IH st1 st'); [by eapply process_row_disjoint| |done].
    destruct (process_row_cases dm st st1 r Hdis H1)
      as [[_ ->]|(uid & age & g & d & b & _ & Hnone & Hadd & _)]; [done|].
    rewrite add_entry_fresh in Hadd by done. injection Hadd as <-. simpl.
    by apply count_edge_sound.
Qed.

(** X14: the district/breed graph that the load returns is well formed:
    every edge joins a district and a breed, carries the same weight in
    both directions, a weight of at least 1, and both its end points are
    vertices of the graph. *)
Theorem returned_district_graph_sound (file : list row)
    (districts : list District) (g : Graph) (wg : WeightedGraph) :
  load_dog_data file districts = Ok (g, wg) → district_graph_sound wg.
Proof.
  unfold load_dog_data. intros H.
  apply bind_Ok in H as (st & Hrows & [= <- <-]).
  apply (process_rows_district_graph (district_lookup_of districts)
           (tail file) initial_state st);
    [apply initial_state_disjoint| |done].
  intros x y w Hw. simpl in Hw. by rewrite lookup_empty in Hw.
Qed.

Lemma returned_district_graph_sound_witness :
  let file :=
    [ sample_header;
      ["1"; "20-29"; "w"; ""; "10"; "labrador"];
      ["2"; "30-39"; "m"; ""; "20"; "pudel"] ] in
  ∃ g wg, load_dog_data file sample_districts = Ok (g, wg) ∧
          district_graph_sound wg.
Proof.
  intros file.
  destruct (load_dog_data file sample_districts) as [[g wg]|] eqn:H;
    [|by vm_compute in H].
  exists g, wg. split; [done|].
  exact (returned_district_graph_sound file sample_districts g wg H).
Defined.

(** ** [dog_breed_data_loader] *)

Lemma int_at_Ok (r : row) (i : nat) (v : Z) :
  int_at r i = Ok v ↔ ∃ text, r !! i = Some text ∧ Str.py_int text = Some v.
Proof.
  unfold int_at, index, to_int. split.
  - destruct (r !! i) as [text|]; simpl; [|done].
    destruct (Str.py_int text) as [z|] eqn:E; [|done].
    intros [= <-]. by exists text.
  - intros (text & -> & Hp). simpl. by rewrite Hp.
Qed.

Lemma breed_of_row_Ok (r : row) (b : UserPreferenceDogBreed) :
  breed_of_row r = Ok b ↔
  r !! 0%nat = Some (breed_name b) ∧
  Forall2 (λ i v, int_at r i = Ok v)
    [1; 2; 3; 4; 5; 6; 7; 8; 9; 10; 11; 12]%nat (traits b).
Proof.
  unfold breed_of_row, traits. split.
  - intros H. unfold index at 1 in H.
    destruct (r !! 0%nat) as [name|]; simpl in H; [|done].
    repeat match type of H with
           | mbind _ (int_at r ?i) = _ =>
               let E := fresh "E" in
               destruct (int_at r i) eqn:E; simpl in H; [|done]
           end.
    injection H as <-. simpl. split; [done|]. by repeat constructor.
  - destruct b. simpl. intros [H0 H].
    repeat match goal with
           | H : Forall2 _ (_ :: _) _ |- _ => apply Forall2_cons_1 in H as [? H]
           end.
    unfold index at 1. rewrite H0. simpl.
    repeat match goal with
           | E : int_at r ?i = Ok _ |- _ => rewrite E; clear E; simpl
           end.
    done.
Qed.

Lemma breed_rows_Ok (rows : list row) :
  ∀ acc l,
    breed_rows acc rows = Ok l ↔
    ∃ l', l = (acc ++ l')%list ∧ Forall2 (λ r b, breed_of_row r = Ok b) rows l'.
Proof.
  induction rows as [|r rows IH]; simpl; intros acc l.
  - split.
    + intros [= <-]. exists []. by rewrite app_nil_r.
    + intros (l' & -> & H). inv H. by rewrite app_nil_r.
  - split.
    + intros H. apply bind_Ok in H as (b & Hb & H).
      apply IH in H as (l' & -> & Hl').
      exists (b :: l'). split; [by rewrite <- app_assoc|by constructor].
    + intros (l' & -> & H). inv H. rewrite H2. simpl.
      apply IH. eexists. split; [|done]. by rewrite <- app_assoc.
Qed.

(** X15: the breed loader keeps the order and the number of the rows: when
    it returns, the list has one record per data row, and the record at
    position [i] holds column 0 of row [i] as its name, unchanged, and the
    integers of its columns 1 to 12 as its twelve traits, in that order. *)
Theorem breed_records_follow_rows (file : list row)
    (l : list UserPreferenceDogBreed) :
  dog_breed_data_loader file = Ok l →
  length l = length (tail file) ∧
  ∀ i r, tail file !! i = Some r →
    ∃ b, l !! i = Some b ∧ r !! 0%nat = Some (breed_name b) ∧
         ∀ j v, traits b !! j = Some v →
                ∃ text, r !! S j = Some text ∧ Str.py_int text = Some v.
Proof.
  unfold dog_breed_data_loader. intros H.
  apply breed_rows_Ok in H as (l' & -> & H). simpl.
  split; [symmetry; by eapply Forall2_length|].
  intros i r Hr.
  destruct (Forall2_lookup_l _ _ _ _ _ H Hr) as (b & Hb & Hrb).
  exists b. split; [done|].
  apply breed_of_row_Ok in Hrb as [H0 Ht]. split; [done|].
  intros j v Hv.
  destruct (Forall2_lookup_r _ _ _ _ _ Ht Hv) as (k & Hk & Hkv).
  apply int_at_Ok in Hkv.
  assert (k = S j) as ->; [|done].
  do 12 (destruct j as [|j]; [by injection Hk as <-|]). done.
Qed.

Lemma breed_records_follow_rows_witness :
  let file :=
    [ ["Breed"; "t1"; "t2"; "t3"; "t4"; "t5"; "t6"; "t7"; "t8"; "t9";
       "t10"; "t11"; "t12"];
      ["pudel"; "5"; "5"; "3"; "1"; "5"; "5"; "3"; "4"; "5"; "4"; "4"; "5"];
      ["Akita"; "3"; "3"; "1"; "3"; "2"; "3"; "5"; "3"; "3"; "4"; "2"; "5"] ] in
  ∃ l, dog_breed_data_loader file = Ok l ∧ length l = 2%nat.
Proof.
  intros file.
  destruct (dog_breed_data_loader file) as [l|] eqn:H; [|by vm_compute in H].
  exists l. split; [done|].
  exact (proj1 (breed_records_follow_rows file l H)).
Defined.

(** X16: the breed loader skips no row and repairs none: it returns
    exactly when every data row has a column 0 and integers in its columns
    1 to 12; one row that is too short or holds a trait that is no integer
    makes the whole load raise. *)
Theorem breed_loader_returns_iff (file : list row) :
  (∃ l, dog_breed_data_loader file = Ok l) ↔
  Forall (λ r : row,
            is_Some (r !! 0%nat) ∧
            ∀ j, (1 ≤ j ≤ 12)%nat →
                 ∃ text, r !! j = Some text ∧ is_Some (Str.py_int text))
    (tail file).
Proof.
  unfold dog_breed_data_loader.
  assert (Hrow : ∀ r : row,
    (∃ b, breed_of_row r = Ok b) ↔
    is_Some (r !! 0%nat) ∧
    ∀ j, (1 ≤ j ≤ 12)%nat →
         ∃ text, r !! j = Some text ∧ is_Some (Str.py_int text)).
  { intros r. split.
    - intros [b Hb]. apply breed_of_row_Ok in Hb as [H0 Ht].
      split; [by eexists|]. intros j Hj.
      destruct (lookup_lt_is_Some_2 (traits b) (j - 1)) as [v Hv];
        [simpl; lia|].
      assert (Hi : [1; 2; 3; 4; 5; 6; 7; 8; 9; 10; 11; 12]%nat !! (j - 1)%nat
                   = Some j).
      { change [1; 2; 3; 4; 5; 6; 7; 8; 9; 10; 11; 12]%nat with (seq 1 12).
        rewrite lookup_seq_lt by lia. f_equal. lia. }
      destruct (Forall2_lookup_l _ _ _ _ _ Ht Hi) as (v' & _ & Hjv).
      apply int_at_Ok in Hjv as (text & ? & ?). exists text. split; [done|].
      by eexists.
    - intros [[name H0] Hall].
      assert (Hint : ∀ j, (1 ≤ j ≤ 12)%nat → ∃ v, int_at r j = Ok v).
      { intros j Hj. destruct (Hall j Hj) as (text & ? & [v ?]).
        exists v. apply int_at_Ok. by exists text. }
      destruct (Hint 1%nat) as [v1 E1]; [lia|].
      destruct (Hint 2%nat) as [v2 E2]; [lia|].
      destruct (Hint 3%nat) as [v3 E3]; [lia|].
      destruct (Hint 4%nat) as [v4 E4]; [lia|].
      destruct (Hint 5%nat) as [v5 E5]; [lia|].
      destruct (Hint 6%nat) as [v6 E6]; [lia|].
      destruct (Hint 7%nat) as [v7 E7]; [lia|].
      destruct (Hint 8%nat) as [v8 E8]; [lia|].
      destruct (Hint 9%nat) as [v9 E9]; [lia|].
      destruct (Hint 10%nat) as [v10 E10]; [lia|].
      destruct (Hint 11%nat) as [v11 E11]; [lia|].
      destruct (Hint 12%nat) as [v12 E12]; [lia|].
      eexists. unfold breed_of_row, index. rewrite H0. simpl.
      rewrite E1, E2, E3, E4, E5, E6, E7, E8, E9, E10, E11, E12. simpl.
      reflexivity. }
  split.
  - intros [l H]. apply breed_rows_Ok in H as (l' & _ & H).
    induction H as [|r b rows l'' Hrb _ IH]; constructor; [|done].
    apply Hrow. by exists b.
  - intros H.
    assert (∃ l', Forall2 (λ r b, breed_of_row r = Ok b) (tail file) l')
      as [l' Hl'].
    { induction H as [|r rows Hr _ [l' IH]]; [by exists []|].
      apply Hrow in Hr as [b Hb]. exists (b :: l'). by constructor. }
    exists ([] ++ l')%list. apply breed_rows_Ok. by exists l'.
Qed.

(** ** [load_translation_mapping] and [load_dog_images] *)

Lemma find_app_first {A} (P : A → bool) (l1 l2 : list A) :
  find P (l1 ++ l2)%list =
  match find P l1 with
  | Some x => Some x
  | None => find P l2
  end.
Proof. induction l1 as [|x l1 IH]; simpl; [done|]. by destruct (P x). Qed.

Lemma key_value_rows_lookup (rows : list row) :
  ∀ d m key,
    key_value_rows d rows = Ok m →
    m !! key = match last_value key rows with
               | Some v => Some v
               | None => d !! key
               end.
Proof.
  induction rows as [|r rows IH]; simpl; intros d m key H.
  - by injection H as <-.
  - unfold index in H.
    destruct (r !! 1%nat) as [value|] eqn:E1; simpl in H; [|done].
    destruct (r !! 0%nat) as [k|] eqn:E0; simpl in H; [|done].
    rewrite (IH _ _ key H). unfold last_value. simpl.
    rewrite find_app_first.
    destruct (find _ (rev rows)) as [r'|] eqn:Hf; simpl.
    + destruct (r' !! 1%nat) as [v|] eqn:Hv; [done|].
      (* a row of the file without a second column makes the loop raise *)
      exfalso. apply find_some in Hf as [Hin _].
      apply in_rev, list_elem_of_In, list_elem_of_split in Hin
        as (pre & post & ->).
      clear IH. revert H. generalize (<[k:=value]> d).
      induction pre as [|p pre IHp]; simpl; intros d'.
      * unfold index. by rewrite Hv.
      * destruct (index p 1) as [?|]; simpl; [|done].
        destruct (index p 0) as [?|]; simpl; [|done]. apply IHp.
    + rewrite E0. case_bool_decide as Hk; simpl.
      * injection Hk as ->. by rewrite E1, lookup_insert_eq.
      * rewrite lookup_insert_ne; [done|congruence].
Qed.

(** X17: both key/value loaders keep, for every key, the value of the last
    row of the file that carries the key, and hold no other key: an
    earlier value of a repeated key is overwritten without notice. *)
Theorem last_row_of_a_key_wins (file : list row) (m : gmap string string)
    (key : string) :
  load_translation_mapping file = Ok m ∨ load_dog_images file = Ok m →
  m !! key = last_value key (tail file).
Proof.
  unfold load_translation_mapping, load_dog_images. intros H.
  assert (H' : key_value_rows ∅ (tail file) = Ok m) by (by destruct H).
  rewrite (key_value_rows_lookup _ _ _ key H'), lookup_empty.
  by destruct (last_value key (tail file)).
Qed.

Lemma last_row_of_a_key_wins_witness :
  let file := [ ["german"; "english"];
                ["Pudel"; "Poodle"];
                ["Dackel"; "Dachshund"];
                ["Pudel"; "Poodle (Standard)"] ] in
  ∃ m, load_translation_mapping file = Ok m ∧
       m !! "Pudel" = Some "Poodle (Standard)" ∧ m !! "Boxer" = None.
Proof.
  intros file.
  destruct (load_translation_mapping file) as [m|] eqn:H;
    [|by vm_compute in H].
  exists m. split; [done|].
  split; rewrite (last_row_of_a_key_wins file m _ (or_introl H)); reflexivity.
Defined.

(** ** [load_district_lat_lng] *)

Lemma name_lookup_foldl (l : list District) :
  ∀ (m : gmap string District) (P : District → Prop),
    (∀ n d, m !! n = Some d → district_name d = n ∧ P d) →
    (∀ d, d ∈ l → P d) →
    ∀ n d, foldl (λ m target, <[district_name target := target]> m) m l !! n
             = Some d →
           district_name d = n ∧ P d.
Proof.
  induction l as [|x l IH]; simpl; intros m P Hm Hl n d; [apply Hm|].
  apply IH; [|intros d' Hd'; apply Hl; by right].
  intros n' d'. destruct (decide (district_name x = n')) as [<-|Hne].
  - rewrite lookup_insert_eq. intros [= <-]. split; [done|]. apply Hl. by left.
  - rewrite lookup_insert_ne by done. apply Hm.
Qed.

Lemma name_lookup_of_elem (districts : list District) (n : string) (d : District) :
  name_lookup_of districts !! n = Some d →
  district_name d = n ∧ d ∈ districts.
Proof.
  apply (name_lookup_foldl districts ∅ (λ d, d ∈ districts)); [|done].
  intros n' d'. by rewrite lookup_empty.
Qed.

Lemma lat_lng_rows_Ok (lookup : gmap string District) (rows : list row) :
  ∀ dict m,
    lat_lng_rows lookup dict rows = Ok m →
    Forall (λ r : row, ∃ name, r !! 0%nat = Some name ∧ is_Some (lookup !! name))
      rows ∧
    ∀ id, is_Some (m !! id) →
          is_Some (dict !! id) ∨
          ∃ r name d, r ∈ rows ∧ r !! 0%nat = Some name ∧
                      lookup !! name = Some d ∧ district_id d = id.
Proof.
  induction rows as [|r rows IH]; simpl; intros dict m H.
  - injection H as <-. split; [constructor|]. intros id ?. by left.
  - unfold index, getitem in H.
    destruct (r !! 0%nat) as [name|] eqn:E0; simpl in H; [|done].
    apply bind_Ok in H as (lat_text & _ & H).
    apply bind_Ok in H as (lat & _ & H).
    apply bind_Ok in H as (lng_text & _ & H).
    apply bind_Ok in H as (lng & _ & H).
    destruct (lookup !! name) as [d|] eqn:Hd; simpl in H; [|done].
    destruct (IH _ _ H) as [Hall Hkeys]. split.
    + constructor; [|done]. exists name. split; [done|]. by rewrite Hd.
    + intros id Hid. destruct (Hkeys id Hid) as [Hin|(r' & n' & d' & Hr' & ?)].
      * destruct (decide (district_id d = id)) as [<-|Hne].
        -- right. exists r, name, d. split; [by left|done].
        -- left. by rewrite lookup_insert_ne in Hin.
      * right. exists r', n', d'. split; [by right|done].
Qed.

(** X18: the coordinate loader is strict about names: when it returns,
    every data row names a district of the given set, and every key of
    the returned mapping is the id of a district of the set whose name
    stands in the file. *)
Theorem lat_lng_keys_are_districts (file : list row) (districts : list District)
    (m : gmap Z (Q * Q)) :
  load_district_lat_lng file districts = Ok m →
  (∀ r, r ∈ tail file →
        ∃ name d, r !! 0%nat = Some name ∧ d ∈ districts ∧
                  district_name d = name) ∧
  (∀ id, is_Some (m !! id) →
         ∃ r d, r ∈ tail file ∧ d ∈ districts ∧ district_id d = id ∧
                r !! 0%nat = Some (district_name d)).
Proof.
  unfold load_district_lat_lng. intros H.
  destruct (lat_lng_rows_Ok _ _ _ _ H) as [Hall Hkeys]. split.
  - intros r Hr. rewrite Forall_forall in Hall.
    destruct (Hall r Hr) as (name & H0 & [d Hd]).
    apply name_lookup_of_elem in Hd as [? ?]. by exists name, d.
  - intros id Hid.
    destruct (Hkeys id Hid) as [[? Hin]|(r & name & d & Hr & H0 & Hd & <-)].
    { by rewrite lookup_empty in Hin. }
    apply name_lookup_of_elem in Hd as [<- ?]. by exists r, d.
Qed.

Lemma lat_lng_keys_are_districts_witness :
  let file := [ ["name"; "lat"; "lng"];
                ["Seefeld"; "47.35"; "8.55"];
                ["Altstadt"; "47.37"; "8.54"] ] in
  ∃ m, load_district_lat_lng file sample_districts = Ok m ∧
       ∀ id, is_Some (m !! id) → id = 10 ∨ id = 20.
Proof.
  intros file.
  destruct (load_district_lat_lng file sample_districts) as [m|] eqn:H;
    [|by vm_compute in H].
  exists m. split; [done|]. intros id Hid.
  destruct (proj2 (lat_lng_keys_are_districts file sample_districts m H) id Hid)
    as (r & d & _ & Hd & <- & _).
  unfold sample_districts in Hd.
  apply elem_of_cons in Hd as [->|Hd]; [by left|].
  apply elem_of_cons in Hd as [->|Hd]; [by right|]. by inv Hd.
Defined.

Lemma name_lookup_foldl_some (l : list District) (n : string) :
  ∀ m : gmap string District,
    is_Some (m !! n) ∨ (∃ d, d ∈ l ∧ district_name d = n) →
    is_Some (foldl (λ m target, <[district_name target := target]> m) m l !! n).
Proof.
  induction l as [|x l IH]; simpl; intros m H.
  - destruct H as [H|(d & Hd & _)]; [done|by inv Hd].
  - apply IH. destruct (decide (district_name x = n)) as [<-|Hne].
    + left. rewrite lookup_insert_eq. by eexists.
    + rewrite lookup_insert_ne by done.
      destruct H as [H|(d & Hd & Hn)]; [by left|].
      apply elem_of_cons in Hd as [->|Hd]; [done|]. right. by exists d.
Qed.

Lemma name_lookup_of_some (districts : list District) (n : string) :
  is_Some (name_lookup_of districts !! n) ↔
  ∃ d, d ∈ districts ∧ district_name d = n.
Proof.
  split.
  - intros [d Hd]. apply name_lookup_of_elem in Hd as [? ?]. by exists d.
  - intros H. apply name_lookup_foldl_some. by right.
Qed.

(** X19: the coordinate loader returns exactly when every data row has a
    name that belongs to a district of the set and two coordinates that
    parse as numbers; a single row with an unknown name or a malformed
    coordinate makes the whole load raise, no row is skipped. *)
Theorem lat_lng_loader_returns_iff (file : list row) (districts : list District) :
  (∃ m, load_district_lat_lng file districts = Ok m) ↔
  Forall (λ r : row,
            ∃ name lat_text lng_text,
              r !! 0%nat = Some name ∧ r !! 1%nat = Some lat_text ∧
              r !! 2%nat = Some lng_text ∧
              is_Some (Str.py_float lat_text) ∧
              is_Some (Str.py_float lng_text) ∧
              ∃ d, d ∈ districts ∧ district_name d = name)
    (tail file).
Proof.
  unfold load_district_lat_lng. generalize (∅ : gmap Z (Q * Q)).
  induction (tail file) as [|r rows IH]; simpl; intros dict.
  - split; [constructor|]. intros _. by exists dict.
  - unfold index, to_float, getitem. split.
    + intros [m H].
      destruct (r !! 0%nat) as [name|] eqn:E0; simpl in H; [|done].
      destruct (r !! 1%nat) as [lat_text|] eqn:E1; simpl in H; [|done].
      destruct (Str.py_float lat_text) as [lat|] eqn:Hlat; simpl in H; [|done].
      destruct (r !! 2%nat) as [lng_text|] eqn:E2; simpl in H; [|done].
      destruct (Str.py_float lng_text) as [lng|] eqn:Hlng; simpl in H; [|done].
      destruct (name_lookup_of districts !! name) as [d|] eqn:Hd;
        simpl in H; [|done].
      constructor; [|apply (IH (<[district_id d := (lat, lng)]> dict)); by exists m].
      exists name, lat_text, lng_text.
      split; [done|]. split; [done|]. split; [done|].
      split; [by eexists|]. split; [by eexists|].
      apply name_lookup_of_some. by eexists.
    + intros H. apply Forall_cons_1 in H as [Hr Hrows].
      destruct Hr as (name & lat_text & lng_text & E0 & E1 & E2 &
                      [lat Hlat] & [lng Hlng] & Hd).
      apply name_lookup_of_some in Hd as [d Hd].
      rewrite E0. simpl. rewrite E1. simpl. rewrite Hlat. simpl.
      rewrite E2. simpl. rewrite Hlng. simpl. rewrite Hd. simpl.
      by apply IH.
Qed.

(** ** The district set and the lookup built from it *)

Lemma find_district_elem (id : Z) (l : list District) (d : District) :
  find_district id l = Some d → d ∈ l ∧ district_id d = id.
Proof.
  intros H. split; [|by eapply find_district_id].
  apply find_some in H as [Hin _]. by apply list_elem_of_In.
Qed.

Lemma lookup_of_foldl_NoDup (l : list District) (k : Z) :
  ∀ m : gmap Z District,
    NoDup (district_id <$> l) →
    (∀ d, d ∈ l → m !! district_id d = None) →
    foldl (λ m target, <[district_id target := target]> m) m l !! k =
    match find_district k l with
    | Some d => Some d
    | None => m !! k
    end.
Proof.
  induction l as [|x l IH]; simpl; intros m Hnd Hm; [done|].
  apply NoDup_cons in Hnd as [Hx Hnd].
  rewrite IH; [|done|].
  - unfold find_district at 2. simpl. fold (find_district k l).
    destruct (Z.eqb_spec (district_id x) k) as [<-|Hne].
    + destruct (find_district (district_id x) l) as [d|] eqn:Hf.
      * apply find_district_elem in Hf as [Hd Hid]. destruct Hx.
        rewrite <- Hid. by apply list_elem_of_fmap_2.
      * by rewrite lookup_insert_eq.
    + destruct (find_district k l); [done|]. by rewrite lookup_insert_ne.
  - intros d Hd. rewrite lookup_insert_ne; [apply Hm; by right|].
    intros Heq. apply Hx. rewrite Heq. by apply list_elem_of_fmap_2.
Qed.

(** X20: loading the district file and building the lookup from the
    loaded set compose as one would hope: looking an id up gives the
    District of the first row of the file that carries the id, and nothing
    for an id that no row carries. *)
Theorem lookup_of_loaded_districts (file : list row) (ds : list District) :
  load_district_data file = Ok ds →
  ∃ parsed,
    mapM row_district (tail file) = Some parsed ∧
    ∀ id, district_lookup_of ds !! id = find_district id parsed.
Proof.
  intros H.
  destruct (load_district_rows_spec (tail file) [] ds (NoDup_nil_2) H)
    as (Hnd & parsed & Hparsed & Hfind).
  exists parsed. split; [done|]. intros id.
  unfold district_lookup_of.
  rewrite (lookup_of_foldl_NoDup ds id ∅ Hnd) by done.
  rewrite lookup_empty, Hfind. simpl. by destruct (find_district id parsed).
Qed.

Lemma lookup_of_loaded_districts_witness :
  let file := [ ["BFS"; "QNR"; "QNAME"];
                ["261031"; "31"; "Alt-Wiedikon"];
                ["261031"; "31"; "Wiedikon"];
                ["261032"; "32"; "Friesenberg"] ] in
  ∃ ds, load_district_data file = Ok ds ∧
        district_lookup_of ds !! 31 =
          Some {| district_id := 31; district_name := "Alt-Wiedikon" |} ∧
        district_lookup_of ds !! 33 = None.
Proof.
  intros file.
  destruct (load_district_data file) as [ds|] eqn:H; [|by vm_compute in H].
  destruct (lookup_of_loaded_districts file ds H) as (parsed & Hp & Hfind).
  exists ds. split; [done|].
  vm_compute in Hp. injection Hp as <-.
  split; rewrite Hfind; reflexivity.
Defined.

(** X21: the district loader skips no row: it returns exactly when every
    data row has an integer in column 1 and a column 2; one malformed row
    makes the whole load raise. *)
Theorem district_loader_returns_iff (file : list row) :
  (∃ ds, load_district_data file = Ok ds) ↔
  Forall (λ r : row,
            ∃ id_text name, r !! 1%nat = Some id_text ∧
                            is_Some (Str.py_int id_text) ∧
                            r !! 2%nat = Some name)
    (tail file).
Proof.
  unfold load_district_data. generalize ([] : list District).
  induction (tail file) as [|r rows IH]; simpl; intros s.
  - split; [constructor|]. intros _. by exists s.
  - unfold index, to_int. split.
    + intros [ds H].
      destruct (r !! 1%nat) as [id_text|] eqn:E1; simpl in H; [|done].
      destruct (Str.py_int id_text) as [id|] eqn:Hid; simpl in H; [|done].
      destruct (r !! 2%nat) as [name|] eqn:E2; simpl in H; [|done].
      constructor; [|eapply IH; by exists ds].
      exists id_text, name. split; [done|]. split; [by eexists|done].
    + intros H. apply Forall_cons_1 in H as [Hr Hrows].
      destruct Hr as (id_text & name & E1 & [id Hid] & E2).
      rewrite E1. simpl. rewrite Hid. simpl. rewrite E2. simpl.
      by apply IH.
Qed.
